(** * XGBTree: the regression tree learner of mlpack's XGBoost method

    A shallow embedding of [src/mlpack/methods/xgboost/xgbtree.hpp]
    (class [XGBTree]: [Train], [Predict], [Prune]) and the properties the
    specification states about it.

    Conventions of the embedding.
    - [double] is IEEE binary64: Rocq's primitive [float], with the
      primitive operations ([+], [/], [*], unary [-], [<?], [<=?], [=?]).
    - [size_t] indices and counts are [nat]; the two places where the code
      relies on unsigned wrap-around ([begin + count - 1] at [count = 0] and
      [maximumDepth - 1] at [maximumDepth = 0]) are written out.
    - [arma::mat] is a list of columns, [arma::rowvec] a list of entries.
      Armadillo's bounds checks ([cols], [row], [swap_cols], [operator()])
      throw [std::logic_error]; unchecked accesses ([operator[]]) out of
      range are undefined.  Both are modelled as [None].
    - The classes the header includes but the sources at hand do not carry
      ([MSEGain], the two split evaluators, [DatasetInfo],
      [AllDimensionSelect], [FeatureImportance]) are the fields of the class
      [Collaborators] or are modelled from the specification; this is said
      at each such definition. *)

From Stdlib Require Import Floats ZArith Lia.
From stdpp Require Import base option list.

Set Default Proof Using "Type".
Set Warnings "-register-all".
Local Open Scope nat_scope.

(** ** Doubles and the anonymous union *)

Definition DBL_MAX : float := 0x1.fffffffffffffp+1023%float.

(** [double(n)] for a [size_t] [n] (for [n] below 2^63, which every
    count of columns in memory is). *)
Definition double_of_size_t (n : nat) : float :=
  PrimFloat.of_uint63 (Uint63.of_Z (Z.of_nat n)).

(** The eight bytes of a [size_t] read back as a [double] (binary64:
    bit 63 sign, bits 52..62 biased exponent, bits 0..51 fraction). *)
Definition double_of_bits (w : Z) : float :=
  let s := Z.testbit w 63 in
  let e := ((w / 2 ^ 52) mod 2 ^ 11)%Z in
  let m := (w mod 2 ^ 52)%Z in
  if (e =? 0)%Z then
    match m with
    | Zpos p => SF2Prim (S754_finite s p (-1074))
    | _ => SF2Prim (S754_zero s)
    end
  else if (e =? 2047)%Z then
    if (m =? 0)%Z then SF2Prim (S754_infinity s) else SF2Prim S754_nan
  else
    match (m + 2 ^ 52)%Z with
    | Zpos p => SF2Prim (S754_finite s p (e - 1075))
    | _ => SF2Prim S754_nan
    end.

(** The eight bytes of a [double] read back as a [size_t] (a NaN reads as
    the canonical quiet NaN pattern). *)
Definition bits_of_double (f : float) : Z :=
  let sign (s : bool) := (if s then 2 ^ 63 else 0)%Z in
  match Prim2SF f with
  | S754_zero s => sign s
  | S754_infinity s => (sign s + 2047 * 2 ^ 52)%Z
  | S754_nan => (2047 * 2 ^ 52 + 2 ^ 51)%Z
  | S754_finite s m e =>
      if (Zpos m <? 2 ^ 52)%Z then (sign s + Zpos m)%Z
      else (sign s + (e + 1075) * 2 ^ 52 + (Zpos m - 2 ^ 52))%Z
  end.

(** [union { double prediction; size_t splitDimension; }]: the member that
    was written last; reading the other member reinterprets the bytes. *)
Inductive Slot :=
  | prediction (p : float)
  | splitDimension (d : nat).

Definition read_prediction (s : Slot) : float :=
  match s with
  | prediction p => p
  | splitDimension d => double_of_bits (Z.of_nat d)
  end.

Definition read_splitDimension (s : Slot) : nat :=
  match s with
  | splitDimension d => d
  | prediction p => Z.to_nat (bits_of_double p)
  end.

(** ** Armadillo containers *)

(** The columns [b .. b + c - 1] of [l]. *)
Definition slice {A} (b c : nat) (l : list A) : list A := take c (drop b l).

(** [l.cols(begin, begin + count - 1)].  Armadillo rejects
    [in_col1 > in_col2 || in_col2 >= n_cols]; with [count = 0] the second
    index is [begin - 1] (or wraps to [SIZE_MAX] at [begin = 0]), so the
    call is accepted exactly when [0 < count] and [begin + count <= n_cols]. *)
Definition cols {A} (l : list A) (begin count : nat) : option (list A) :=
  if decide (0 < count ∧ begin + count ≤ length l)
  then Some (slice begin count l) else None.

(** [.row(i)] of a block of columns. *)
Definition row (i : nat) (block : list (list float)) : option (list float) :=
  mapM (λ col : list float, col !! i) block.

(** The list with entries [i] and [j] exchanged. *)
Definition swap {A} (l : list A) (i j : nat) : list A :=
  match l !! i, l !! j with
  | Some x, Some y => <[i := y]> (<[j := x]> l)
  | _, _ => l
  end.

(** [l.swap_cols(i, j)], bounds-checked. *)
Definition swap_cols {A} (l : list A) (i j : nat) : option (list A) :=
  if decide (i < length l ∧ j < length l) then Some (swap l i j) else None.

(** ** The data a training run works on *)

(** Modelled from the spec: [data::Datatype] is declared outside the
    sources at hand; a dimension is numeric or categorical, and the cast
    [(size_t) Type(d)] gives 0 and 1. *)
Inductive Datatype := numeric | categorical.

Definition size_t_of_Datatype (t : Datatype) : nat :=
  match t with numeric => 0 | categorical => 1 end.

(** Modelled from the spec: [data::DatasetInfo] is declared outside the
    sources at hand; the descriptor gives a type tag per dimension and the
    cardinality of categorical dimensions. *)
Record DatasetInfo := {
  Dimensionality : nat;
  Type_ : nat → Datatype;
  NumMappings : nat → nat;
}.

(** The three arguments [Train] takes by mutable reference. *)
Record TrainState := {
  data : list (list float);
  responses : list float;
  weights : list float;
}.

(** Modelled from the spec: [FeatureImportance] is declared outside the
    sources at hand.  The sink is the sequence of calls it has received,
    oldest first; [featImp == nullptr] is [None]. *)
Inductive Notification :=
  | increaseFeatureFrequency (dim : nat) (amount : nat)
  | increaseFeatureCover (dim : nat) (amount : float).

Definition FeatureImportance := list Notification.

(** ** The collaborators of the tree node *)

Class Collaborators := {
  (** What the two [AuxiliarySplitInfo] base classes of [XGBTree] hold. *)
  AuxiliarySplitInfo : Type;
  default_aux : AuxiliarySplitInfo;
  (** [MSEGain::Evaluate<false>(responses, weights)] *)
  Evaluate : list float → list float → float;
  (** [MSEGain::OutputLeafValue<false>(responses, weights)] *)
  OutputLeafValue : list float → list float → float;
  (** [NumericSplit::SplitIfBetter<false>(bestGain, data, responses, weights,
      minimumLeafSize, minimumGainSplit, splitInfo, aux, msegain)]: the gain
      and the updated [splitInfo] and [aux]. *)
  NumericSplitIfBetter :
    float → list float → list float → list float → nat → float →
    list float → AuxiliarySplitInfo → float * list float * AuxiliarySplitInfo;
  NumericNumChildren : list float → AuxiliarySplitInfo → nat;
  NumericCalculateDirection : float → list float → AuxiliarySplitInfo → nat;
  (** [CategoricalSplit::SplitIfBetter<false>(bestGain, data, numCategories,
      responses, weights, minimumLeafSize, minimumGainSplit, splitInfo, aux,
      msegain)] *)
  CategoricalSplitIfBetter :
    float → list float → nat → list float → list float → nat → float →
    list float → AuxiliarySplitInfo → float * list float * AuxiliarySplitInfo;
  CategoricalNumChildren : list float → AuxiliarySplitInfo → nat;
  CategoricalCalculateDirection :
    float → list float → AuxiliarySplitInfo → nat;
}.

Section XGBTree.
Context `{C : Collaborators}.

(** ** The node *)

Inductive XGBTree := mkXGBTree {
  children : list XGBTree;
  slot : Slot;
  dimensionType : nat;
  splitInfo : list float;
  aux : AuxiliarySplitInfo;
  nodeGain : float;
}.

(** [new XGBTree()]: no children; the constructor initialises nothing
    else, and [Train] writes every member before it is read. *)
Definition fresh : XGBTree :=
  mkXGBTree [] (prediction 0%float) 0 [] default_aux 0%float.

(** The record of one invocation of [Train], kept beside the node it
    built: its range, the split it committed (dimension and winning gain),
    the invocations for its children, and the value it returned. *)
Inductive Call := mkCall {
  call_begin : nat;
  call_count : nat;
  call_split : option (nat * float);
  call_children : list Call;
  call_result : float;
}.

(** ** Train *)

Section Train.
Variable datasetInfo : DatasetInfo.
Variable minimumLeafSize : nat.
Variable minimumGainSplit : float.
(** Modelled from the spec: [AllDimensionSelect] is declared outside the
    sources at hand; it enumerates all dimensions [0 .. End() - 1] in
    order, and the constructor sets [End()] to [data.n_rows]. *)
Variable dimensionSelector : nat.

(** The scan over candidate dimensions (lines 140-182), from dimension
    [i] on: the best dimension, its gain, and the split information the
    evaluators left behind. *)
Fixpoint ScanDimensions (st : TrainState) (begin count : nat)
    (dims : list nat) (bestDim : nat) (bestGain : float)
    (info : list float) (ax : AuxiliarySplitInfo)
    : option (nat * float * list float * AuxiliarySplitInfo) :=
  match dims with
  | [] => Some (bestDim, bestGain, info, ax)
  | i :: dims' =>
      block ← cols (data st) begin count;
      feature ← row i block;
      resp ← cols (responses st) begin count;
      let '(dimGain, info', ax') :=
        match Type_ datasetInfo i with
        | categorical =>
            CategoricalSplitIfBetter bestGain feature
              (NumMappings datasetInfo i) resp (weights st)
              minimumLeafSize minimumGainSplit info ax
        | numeric =>
            NumericSplitIfBetter bestGain feature resp (weights st)
              minimumLeafSize minimumGainSplit info ax
        end in
      if (dimGain =? DBL_MAX)%float then
        ScanDimensions st begin count dims' bestDim bestGain info' ax'
      else if (0 <=? dimGain)%float then
        Some (i, dimGain, info', ax')
      else
        ScanDimensions st begin count dims' i dimGain info' ax'
  end.

(** [childAssignments[j - begin]] for [j] from [begin] (lines 204-218). *)
Definition CalculateAssignments (st : TrainState) (begin count : nat)
    (bestDim : nat) (info : list float) (ax : AuxiliarySplitInfo)
    : option (list nat) :=
  mapM (λ j,
    col ← data st !! j;
    value ← col !! bestDim;
    Some (match Type_ datasetInfo bestDim with
          | categorical => CategoricalCalculateDirection value info ax
          | numeric => NumericCalculateDirection value info ax
          end))
    (seq begin count).

(** [childCounts[childAssignments[i - begin]]++] over the range
    (lines 221-223). *)
Fixpoint CountChildren (childCounts : list nat) (assignments : list nat)
    : option (list nat) :=
  match assignments with
  | [] => Some childCounts
  | a :: rest =>
      n ← childCounts !! a;
      CountChildren (<[a := S n]> childCounts) rest
  end.

(** The inner loop of the partition (lines 232-241) for child [i], over
    the remaining values [js] of [j]. *)
Fixpoint PartitionPass (i begin : nat) (js : list nat)
    (childAssignments : list nat) (st : TrainState) (currentCol : nat)
    : option (list nat * TrainState * nat) :=
  match js with
  | [] => Some (childAssignments, st, currentCol)
  | j :: js' =>
      a ← childAssignments !! (j - begin);
      if decide (a = i) then
        childAssignments' ←
          swap_cols childAssignments (currentCol - begin) (j - begin);
        data' ← swap_cols (data st) currentCol j;
        responses' ← swap_cols (responses st) currentCol j;
        PartitionPass i begin js' childAssignments'
          {| data := data'; responses := responses'; weights := weights st |}
          (S currentCol)
      else
        PartitionPass i begin js' childAssignments st currentCol
  end.

(** The variables the loop over the children (lines 229-254) updates. *)
Record SplitLoop := {
  childAssignments : list nat;
  state : TrainState;
  currentCol : nat;
  bestGain : float;
  built : list XGBTree;
  featImp : option FeatureImportance;
  calls : list Call;
}.

Definition TrainResult : Type :=
  float * XGBTree * TrainState * option FeatureImportance * Call.

Definition Trainer : Type :=
  XGBTree → TrainState → nat → nat → option FeatureImportance →
  option TrainResult.

(** The loop over the children, for the child indices [todo]; [train_child]
    is [child->Train(... maximumDepth - 1 ...)]. *)
Fixpoint SplitIntoChildren (train_child : Trainer) (begin count : nat)
    (childCounts : list nat) (todo : list nat) (s : SplitLoop)
    : option SplitLoop :=
  match todo with
  | [] => Some s
  | i :: todo' =>
      let currentChildBegin := currentCol s in
      '(assignments', st', currentCol') ←
        PartitionPass i begin
          (seq currentChildBegin (begin + count - currentChildBegin))
          (childAssignments s) (state s) currentChildBegin;
      '(childGain, child, st'', featImp', call) ←
        train_child fresh st' currentChildBegin
          (currentCol' - currentChildBegin) (featImp s);
      n ← childCounts !! i;
      SplitIntoChildren train_child begin count childCounts todo'
        {| childAssignments := assignments';
           state := st'';
           currentCol := currentCol';
           bestGain :=
             (bestGain s +
              double_of_size_t n / double_of_size_t count * (- childGain))%float;
           built := built s ++ [child];
           featImp := featImp';
           calls := calls s ++ [call] |}
  end.

(** The best split of the range (lines 132-183): the gain of the
    undivided range and "no split", improved by the scan unless
    [maximumDepth == 1]. *)
Definition BestSplit (maximumDepth : Z) (this : XGBTree) (st : TrainState)
    (begin count : nat)
    : option (nat * float * list float * AuxiliarySplitInfo) :=
  resp ← cols (responses st) begin count;
  let bestGain := Evaluate resp (weights st) in
  let bestDim := Dimensionality datasetInfo in
  if decide (maximumDepth ≠ 1%Z) then
    ScanDimensions st begin count (seq 0 dimensionSelector)
      bestDim bestGain (splitInfo this) (aux this)
  else Some (bestDim, bestGain, splitInfo this, aux this).

(** The body of [Train] (lines 124-265) on the node [this]. *)
Definition TrainBody (train_child : Trainer) (maximumDepth : Z)
    (this : XGBTree) (st : TrainState) (begin count : nat)
    (sink : option FeatureImportance) : option TrainResult :=
  '(bestDim, bestGain1, info, ax) ← BestSplit maximumDepth this st begin count;
  if decide (bestDim ≠ Dimensionality datasetInfo) then
    let sink1 :=
      (λ log, log ++ [increaseFeatureFrequency bestDim 1;
                      increaseFeatureCover bestDim bestGain1]) <$> sink in
    let numChildren :=
      match Type_ datasetInfo bestDim with
      | categorical => CategoricalNumChildren info ax
      | numeric => NumericNumChildren info ax
      end in
    assignments ← CalculateAssignments st begin count bestDim info ax;
    childCounts ← CountChildren (replicate numChildren 0) assignments;
    s ← SplitIntoChildren train_child begin count childCounts
           (seq 0 numChildren)
           {| childAssignments := assignments; state := st;
              currentCol := begin; bestGain := 0%float; built := [];
              featImp := sink1; calls := [] |};
    Some ((- bestGain s)%float,
          mkXGBTree (built s) (splitDimension bestDim)
            (size_t_of_Datatype (Type_ datasetInfo bestDim)) info ax
            (bestGain s),
          state s, featImp s,
          mkCall begin count (Some (bestDim, bestGain1)) (calls s)
            (- bestGain s)%float)
  else
    resp ← cols (responses st) begin count;
    Some ((- bestGain1)%float,
          mkXGBTree [] (prediction (OutputLeafValue resp (weights st)))
            (dimensionType this) info ax bestGain1,
          st, sink,
          mkCall begin count None [] (- bestGain1)%float).

(** [maximumDepth - 1] on [size_t]. *)
Definition pred_size_t (n : Z) : Z := ((n - 1) mod 2 ^ 64)%Z.

(** [Train], by recursion on the number [levels] of levels still allowed
    below the node. *)
Fixpoint TrainLevels (levels : nat) (maximumDepth : Z) : Trainer :=
  TrainBody
    (match levels with
     | 0 => λ _ _ _ _ _, None
     | S levels' => TrainLevels levels' (pred_size_t maximumDepth)
     end)
    maximumDepth.

(** [XGBTree::Train], for a [size_t] value [maximumDepth] (from 0 to
    2^64 - 1).  [maximumDepth] counts down to 1, where the scan is skipped
    and the node is a leaf; from 0 it wraps to [SIZE_MAX].  So
    [pred_size_t maximumDepth] levels below the node are enough, and
    [Train] satisfies the recursion of the source ([Train_unfold]). *)
Definition Train (maximumDepth : Z) : Trainer :=
  TrainLevels (Z.to_nat (pred_size_t maximumDepth)) maximumDepth.

End Train.

(** The constructor (lines 86-109): train a new node on all columns, with
    an empty weight vector. *)
Definition XGBTree_new (data0 : list (list float)) (responses0 : list float)
    (datasetInfo : DatasetInfo) (minimumLeafSize : nat)
    (minimumGainSplit : float) (maximumDepth : Z)
    (sink : option FeatureImportance) : option TrainResult :=
  let n_rows := match data0 with [] => 0 | col :: _ => length col end in
  Train datasetInfo minimumLeafSize minimumGainSplit n_rows maximumDepth
    fresh {| data := data0; responses := responses0; weights := [] |}
    0 (length data0) sink.

(** ** Predict *)

(** [CalculateDirection(point)] of the node (lines 55-63). *)
Definition CalculateDirection (t : XGBTree) (point : list float)
    : option nat :=
  value ← point !! read_splitDimension (slot t);
  Some (if decide (dimensionType t = size_t_of_Datatype categorical)
        then CategoricalCalculateDirection value (splitInfo t) (aux t)
        else NumericCalculateDirection value (splitInfo t) (aux t)).

(** [children[direction]->Predict(point)]; indexing a [std::vector] out
    of range is undefined. *)
Definition PredictChild (predict : XGBTree → option float)
    : list XGBTree → nat → option float :=
  fix at_ (cs : list XGBTree) (direction : nat) {struct cs} :=
    match cs, direction with
    | [], _ => None
    | c :: _, 0 => predict c
    | _ :: cs', S n => at_ cs' n
    end.

Fixpoint Predict (point : list float) (t : XGBTree) {struct t}
    : option float :=
  match t with
  | mkXGBTree cs s _ _ _ _ =>
      match cs with
      | [] => Some (read_prediction s)
      | _ =>
          direction ← CalculateDirection t point;
          PredictChild (Predict point) cs direction
      end
  end.

(** ** Prune *)

(** The loop over the children (lines 283-296): a child whose [Prune]
    returns [true] is erased, and the index stays where it is. *)
Definition PruneChildren (prune : XGBTree → XGBTree * bool)
    : list XGBTree → list XGBTree :=
  fix loop (cs : list XGBTree) {struct cs} :=
    match cs with
    | [] => []
    | c :: cs' =>
        let '(c', store) := prune c in
        if store then loop cs' else c' :: loop cs'
    end.

(** [Prune]: the node after pruning and the flag it returns. *)
Fixpoint Prune (threshold : float) (t : XGBTree) {struct t}
    : XGBTree * bool :=
  match t with
  | mkXGBTree cs s dt info ax gain =>
      (mkXGBTree (PruneChildren (Prune threshold) cs) s dt info ax gain,
       (gain <? threshold)%float)
  end.

(** All nodes of a tree, the root first. *)
Fixpoint nodes (t : XGBTree) : list XGBTree :=
  match t with
  | mkXGBTree cs _ _ _ _ _ => t :: flat_map nodes cs
  end.

End XGBTree.

(** * Vocabulary of the specification *)

(** The (feature column, response) pairs of the samples. *)
Definition pairs (st : TrainState) : list (list float * float) :=
  zip (data st) (responses st).

(** [st'] is [st] with columns and responses reordered together inside
    [b .. b + c - 1] and nothing else changed. *)
Record Reorders (b c : nat) (st st' : TrainState) : Prop := {
  reorders_pairs : pairs st' ≡ₚ pairs st;
  reorders_data : data st' ≡ₚ data st;
  reorders_responses : responses st' ≡ₚ responses st;
  reorders_data_outside k :
    ¬ (b ≤ k < b + c) → data st' !! k = data st !! k;
  reorders_responses_outside k :
    ¬ (b ≤ k < b + c) → responses st' !! k = responses st !! k;
  reorders_weights : weights st' = weights st;
}.

(** From column [from] on, entry [k] of the assignments is the direction
    of column [begin + k]. *)
Definition Lockstep (dir : list float → option nat) (begin from : nat)
    (ca : list nat) (st : TrainState) : Prop :=
  ∀ k a, from ≤ begin + k → ca !! k = Some a →
    ∃ col, data st !! (begin + k) = Some col ∧ dir col = Some a.

(** Following the spec's words ("stable count sort by child index"): the
    entries of [l] with key 0 in their order in [l], then those with key
    1, and so on. *)
Definition stable_count_sort {A} (key : A → option nat) (numChildren : nat)
    (l : list A) : list A :=
  flat_map (λ i, filter (λ x, key x = Some i) l) (seq 0 numChildren).

Section Vocabulary.
Context `{C : Collaborators}.

(** The ranges of the invocations [ks], laid end to end, lead from
    column [b] to column [e]. *)
Fixpoint Tiles (b : nat) (ks : list Call) (e : nat) : Prop :=
  match ks with
  | [] => b = e
  | k :: ks' => call_begin k = b ∧ Tiles (b + call_count k) ks' e
  end.

(** Column [j] lies in the range of invocation [k]. *)
Definition covers (k : Call) (j : nat) : Prop :=
  call_begin k ≤ j < call_begin k + call_count k.

(** [bestGain] after the loop over the children: from [0.0], one
    [+= double(childCount) / double(count) * (-childGain)] per child. *)
Definition WeightedGain (count : nat) (ks : list Call) : float :=
  foldl (λ acc k,
    (acc + double_of_size_t (call_count k) / double_of_size_t count
           * (- call_result k))%float) 0%float ks.

(** A property of every node of a tree, each node taken with the
    invocation of [Train] that built it. *)
Inductive EveryNode (P : XGBTree → Call → Prop) : XGBTree → Call → Prop :=
  | EveryNode_intro t k :
      P t k → Forall2 (EveryNode P) (children t) (call_children k) →
      EveryNode P t k.

(** What holds of a node and the invocation that built it. *)
Definition Sound (t : XGBTree) (k : Call) : Prop :=
  0 < call_count k ∧ call_result k = (- nodeGain t)%float ∧
  match call_split k with
  | None =>
      children t = [] ∧ call_children k = [] ∧ ∃ p, slot t = prediction p
  | Some (d, _) =>
      children t ≠ [] ∧ slot t = splitDimension d ∧
      Tiles (call_begin k) (call_children k) (call_begin k + call_count k) ∧
      nodeGain t = WeightedGain (call_count k) (call_children k)
  end.

(** C1, for one node: the ranges of the children of an internal node are
    laid end to end over the range of the node, so they cover it exactly
    and no column lies in two of them. *)
Definition ChildrenTile (t : XGBTree) (k : Call) : Prop :=
  children t ≠ [] →
    Tiles (call_begin k) (call_children k) (call_begin k + call_count k) ∧
    (∀ j, covers k j ↔ ∃ kc, kc ∈ call_children k ∧ covers kc j) ∧
    (∀ i1 i2 k1 k2 j,
       call_children k !! i1 = Some k1 → call_children k !! i2 = Some k2 →
       covers k1 j → covers k2 j → i1 = i2).

(** C3, for one node: the invocation returned [-nodeGain], and an
    internal node caches the weighted sum over its children. *)
Definition GainCached (t : XGBTree) (k : Call) : Prop :=
  call_result k = (- nodeGain t)%float ∧
  (children t ≠ [] →
     nodeGain t = WeightedGain (call_count k) (call_children k)).

(** C9, for one node: an invocation committed a split on [d] exactly when
    the node is internal with split dimension [d]. *)
Definition Committed (t : XGBTree) (k : Call) : Prop :=
  match call_split k with
  | Some (d, _) => slot t = splitDimension d ∧ children t ≠ []
  | None => children t = [] ∧ ∃ p, slot t = prediction p
  end.

(** The direction [Train] computes for a column when it splits on
    [bestDim] (lines 205-218). *)
Definition direction (datasetInfo : DatasetInfo) (bestDim : nat)
    (info : list float) (ax : AuxiliarySplitInfo) (col : list float)
    : option nat :=
  value ← col !! bestDim;
  Some (match Type_ datasetInfo bestDim with
        | categorical => CategoricalCalculateDirection value info ax
        | numeric => NumericCalculateDirection value info ax
        end).

(** In the matrix [dat], the range of the [i]-th child holds only columns
    that the node routes to child [i]. *)
Definition Grouped (dat : list (list float)) (t : XGBTree) (k : Call)
    : Prop :=
  ∀ i kc, call_children k !! i = Some kc →
    Forall (λ col, CalculateDirection t col = Some i)
      (slice (call_begin kc) (call_count kc) dat).

(** What holds of a successful invocation on [b .. b + c - 1]. *)
Record Good (st : TrainState) (b c : nat) (g : float) (t : XGBTree)
    (st' : TrainState) (k : Call) : Prop := {
  good_count : 0 < c;
  good_range : b + c ≤ length (responses st);
  good_begin : call_begin k = b;
  good_size : call_count k = c;
  good_result : call_result k = g;
  good_reorders : Reorders b c st st';
  good_nodes : EveryNode Sound t k;
  good_grouped : Grouped (data st') t k;
}.

Definition GoodTrainer (train : Trainer) : Prop :=
  ∀ this st b c sink g t st' sink' k,
    train this st b c sink = Some (g, t, st', sink', k) →
    Good st b c g t st' k.

(** The invariant of the loop over the children, before child [i0]. *)
Record LoopInv (dir : list float → option nat) (begin count i0 : nat)
    (ca0 : list nat) (st0 : TrainState) (s : SplitLoop) : Prop := {
  inv_length : length (childAssignments s) = count;
  inv_col : begin ≤ currentCol s ≤ begin + count;
  inv_perm : childAssignments s ≡ₚ ca0;
  inv_placed k a :
    begin + k < currentCol s → childAssignments s !! k = Some a → a < i0;
  inv_rest k a :
    currentCol s ≤ begin + k → childAssignments s !! k = Some a → i0 ≤ a;
  inv_lock : Lockstep dir begin (currentCol s) (childAssignments s) (state s);
  inv_reorders : Reorders begin count st0 (state s);
  inv_calls : length (calls s) = i0;
  inv_tiles : Tiles begin (calls s) (currentCol s);
  inv_built : Forall2 (EveryNode Sound) (built s) (calls s);
  inv_gain : bestGain s = WeightedGain count (calls s);
  inv_grouped i kc :
    calls s !! i = Some kc →
    Forall (λ col, dir col = Some i)
      (slice (call_begin kc) (call_count kc) (data (state s)));
}.

(** The calls an invocation makes on a non-null sink, in order: two per
    committed split, the node's own before those of its children. *)
Fixpoint notifications (k : Call) : list Notification :=
  match k with
  | mkCall _ _ split ks _ =>
      match split with
      | Some (d, gain) =>
          [increaseFeatureFrequency d 1; increaseFeatureCover d gain]
      | None => []
      end ++ flat_map notifications ks
  end.

(** The sink after it received [received]; a null sink stays null. *)
Definition notify (sink : option FeatureImportance)
    (received : list Notification) : option FeatureImportance :=
  (λ log, log ++ received) <$> sink.

(** The result of a run, with the sink replaced by [sink] after the
    calls of the run. *)
Definition with_sink (sink : option FeatureImportance) (r : TrainResult)
    : TrainResult :=
  let '(g, t, st', _, k) := r in (g, t, st', notify sink (notifications k), k).

(** A run with any sink is the run with the null sink, plus the calls. *)
Definition SinkOblivious (train : Trainer) : Prop :=
  ∀ this st b c sink,
    train this st b c sink = with_sink sink <$> train this st b c None.

Definition set_featImp (sink : option FeatureImportance) (s : SplitLoop)
    : SplitLoop :=
  {| childAssignments := childAssignments s; state := state s;
     currentCol := currentCol s; bestGain := bestGain s; built := built s;
     featImp := sink; calls := calls s |}.

End Vocabulary.

(** ** The shape of a tree and of a run *)

Section Shape.
Context `{C : Collaborators}.

(** The leaves of a tree, from left to right. *)
Fixpoint leaves (t : XGBTree) : list XGBTree :=
  match t with
  | mkXGBTree cs _ _ _ _ _ =>
      match cs with [] => [t] | _ => flat_map leaves cs end
  end.

(** The invocations that committed no split, from left to right. *)
Fixpoint leaf_calls (k : Call) : list Call :=
  match k with
  | mkCall _ _ split ks _ =>
      match split with None => [k] | Some _ => flat_map leaf_calls ks end
  end.

(** The internal nodes of a tree, the root first. *)
Definition internal_nodes (t : XGBTree) : list XGBTree :=
  filter (λ n, children n ≠ []) (nodes t).

(** The number of nodes on the longest path from the node to a leaf. *)
Fixpoint depth (t : XGBTree) : nat :=
  match t with
  | mkXGBTree cs _ _ _ _ _ => S (foldr (λ c, Nat.max (depth c)) 0 cs)
  end.

(** The dimension and the amount of the [increaseFeatureFrequency] calls
    among the calls a sink received. *)
Definition frequencies (log : list Notification) : list (nat * nat) :=
  omap (λ e, match e with
             | increaseFeatureFrequency d a => Some (d, a)
             | increaseFeatureCover _ _ => None
             end) log.

(** In the state [st], a leaf holds the leaf value of the responses of
    its range, and the range of each child of an internal node holds only
    columns that the node routes to that child. *)
Definition Fits (st : TrainState) (t : XGBTree) (k : Call) : Prop :=
  match call_split k with
  | None =>
      slot t = prediction
        (OutputLeafValue (slice (call_begin k) (call_count k) (responses st))
           (weights st))
  | Some _ => Grouped (data st) t k
  end.

(** A trainer whose trees fit the state it leaves. *)
Definition Fitting (train : Trainer) : Prop :=
  ∀ this st b c sink g t st' sink' k,
    train this st b c sink = Some (g, t, st', sink', k) →
    EveryNode (Fits st') t k.

(** What the members of an internal node say about its split
    (lines 193-201 and 229-254): the split dimension is one the selector
    offers and not the "no split" mark, [dimensionType] is the type of
    that dimension, and the node has as many children as the splitter of
    that type asks for. *)
Definition SplitsOn (datasetInfo : DatasetInfo) (dimensionSelector : nat)
    (n : XGBTree) : Prop :=
  let d := read_splitDimension (slot n) in
  d < dimensionSelector ∧ d ≠ Dimensionality datasetInfo ∧
  dimensionType n = size_t_of_Datatype (Type_ datasetInfo d) ∧
  length (children n) =
    match Type_ datasetInfo d with
    | categorical => CategoricalNumChildren (splitInfo n) (aux n)
    | numeric => NumericNumChildren (splitInfo n) (aux n)
    end.

(** A trainer whose trees have only such internal nodes. *)
Definition WellSplit (datasetInfo : DatasetInfo) (dimensionSelector : nat)
    (train : Trainer) : Prop :=
  ∀ this st b c sink g t st' sink' k,
    train this st b c sink = Some (g, t, st', sink', k) →
    Forall (SplitsOn datasetInfo dimensionSelector) (internal_nodes t).

End Shape.

(** * Reference collaborators

    The squared-error criterion and the two split evaluators are declared
    outside the sources at hand.  The definitions of this module follow
    the contracts of sections 4.1 to 4.3 of the specification and give
    the concrete runs something to execute; every general theorem below
    is proved for arbitrary collaborators. *)
Module Reference.

Definition sum (l : list float) : float :=
  foldl (λ acc x, (acc + x)%float) 0%float l.

Definition mean (l : list float) : float :=
  (sum l / double_of_size_t (length l))%float.

(** Modelled from the spec: [MSEGain::Evaluate] (section 4.1), the
    negated sum of squared residuals from the subset mean; the weights
    are not consumed. *)
Definition Evaluate (resp _weights : list float) : float :=
  match resp with
  | [] => 0%float
  | _ => let m := mean resp in
         (- sum (map (λ r, ((r - m) * (r - m))%float) resp))%float
  end.

(** Modelled from the spec: [MSEGain::OutputLeafValue] (section 4.1),
    the subset mean. *)
Definition OutputLeafValue (resp _weights : list float) : float := mean resp.

Fixpoint insert_distinct (x : float) (l : list float) : list float :=
  match l with
  | [] => [x]
  | y :: l' =>
      if (x <? y)%float then x :: l
      else if (x =? y)%float then l
      else y :: insert_distinct x l'
  end.

Definition sorted_distinct (l : list float) : list float :=
  foldr insert_distinct [] l.

Fixpoint midpoints (l : list float) : list float :=
  match l with
  | a :: (b :: _) as l' => ((a + b) / 2)%float :: midpoints l'
  | _ => []
  end.

Definition select (keep : float → bool) (feature resp : list float)
    : list float :=
  snd <$> filter (λ p, keep (fst p) = true) (zip feature resp).

Definition improves (bestGain minimumGainSplit gain : float) : bool :=
  (bestGain <? gain)%float && (bestGain + minimumGainSplit <=? gain)%float.

(** Modelled from the spec: [BestBinaryNumericSplit::SplitIfBetter]
    (section 4.2), the best qualifying threshold between two consecutive
    distinct values, or the sentinel [DBL_MAX]. *)
Definition NumericSplitIfBetter (bestGain : float)
    (feature resp weights : list float) (minimumLeafSize : nat)
    (minimumGainSplit : float) (info : list float) (ax : unit)
    : float * list float * unit :=
  let candidate (best : option (float * float)) (t : float) :=
    let left := select (λ v, (v <=? t)%float) feature resp in
    let right := select (λ v, negb (v <=? t)%float) feature resp in
    let gain := (Evaluate left weights + Evaluate right weights)%float in
    if decide (length left < minimumLeafSize ∨ length right < minimumLeafSize)
    then best
    else if improves (from_option snd bestGain best) minimumGainSplit gain
    then Some (t, gain) else best in
  match foldl candidate None (midpoints (sorted_distinct feature)) with
  | Some (t, gain) => (gain, [t], ax)
  | None => (DBL_MAX, info, ax)
  end.

(** Modelled from the spec: section 4.2, 0 if the value is at most the
    threshold, else 1. *)
Definition NumericCalculateDirection (value : float) (info : list float)
    (_ : unit) : nat :=
  match info with
  | t :: _ => if (value <=? t)%float then 0 else 1
  | [] => 0
  end.

(** [(size_t) value] for a non-negative finite [value]. *)
Definition size_t_of_double (value : float) : nat :=
  match Prim2SF value with
  | S754_finite false m e =>
      Z.to_nat (if (0 <=? e)%Z then Zpos m * 2 ^ e else Zpos m / 2 ^ (- e))
  | _ => 0
  end.

(** Modelled from the spec: [AllCategoricalSplit::SplitIfBetter]
    (section 4.3), one child per category code. *)
Definition CategoricalSplitIfBetter (bestGain : float)
    (feature : list float) (numCategories : nat)
    (resp weights : list float) (minimumLeafSize : nat)
    (minimumGainSplit : float) (info : list float) (ax : unit)
    : float * list float * unit :=
  let groups :=
    (λ k, snd <$> filter (λ p, size_t_of_double (fst p) = k)
                    (zip feature resp)) <$> seq 0 numCategories in
  let gain := sum ((λ g, Evaluate g weights) <$> groups) in
  if decide (Exists (λ g : list float, length g < minimumLeafSize) groups)
  then (DBL_MAX, info, ax)
  else if improves bestGain minimumGainSplit gain
  then (gain, [double_of_size_t numCategories], ax)
  else (DBL_MAX, info, ax).

(** Modelled from the spec: section 4.3, the cardinality of the
    dimension. *)
Definition CategoricalNumChildren (info : list float) (_ : unit) : nat :=
  match info with
  | n :: _ => size_t_of_double n
  | [] => 0
  end.

(** Modelled from the spec: section 4.3, the category code itself. *)
Definition CategoricalCalculateDirection (value : float)
    (_ : list float) (_ : unit) : nat :=
  size_t_of_double value.

#[export] Instance collaborators : Collaborators := {
  AuxiliarySplitInfo := unit;
  default_aux := tt;
  Evaluate := Evaluate;
  OutputLeafValue := OutputLeafValue;
  NumericSplitIfBetter := NumericSplitIfBetter;
  NumericNumChildren := λ _ _, 2;
  NumericCalculateDirection := NumericCalculateDirection;
  CategoricalSplitIfBetter := CategoricalSplitIfBetter;
  CategoricalNumChildren := CategoricalNumChildren;
  CategoricalCalculateDirection := CategoricalCalculateDirection;
}.

Definition all_numeric (dims : nat) : DatasetInfo :=
  {| Dimensionality := dims; Type_ := λ _, numeric; NumMappings := λ _, 0 |}.

(** The first scenario of section 8: one numeric feature [1, 2, 3, 4],
    responses [0, 0, 10, 10]. *)
Definition scenario_state : TrainState :=
  {| data := [[1%float]; [2%float]; [3%float]; [4%float]];
     responses := [0%float; 0%float; 10%float; 10%float];
     weights := [] |}.

Definition leaf (p gain : float) : XGBTree :=
  mkXGBTree [] (prediction p) 0 [] tt gain.

Definition leaf_call (b c : nat) (result : float) : Call :=
  mkCall b c None [] result.

(** The tree [Train] builds for it with [maximumDepth = 3], and the
    invocations that built it. *)
Definition scenario_node : XGBTree :=
  mkXGBTree [leaf 0 (-0); leaf 10 (-0)] (splitDimension 0) 0 [2.5%float]
    tt 0.

Definition scenario_call : Call :=
  mkCall 0 4 (Some (0, (-0)%float)) [leaf_call 0 2 0; leaf_call 2 2 0] (-0).

Definition scenario_result : TrainResult :=
  ((-0)%float, scenario_node, scenario_state, None, scenario_call).

(** A second data set: the feature values [5, 6, 7, 1] split best between
    5 and 6, which sends the samples to the children 0, 1, 1, 0. *)
Definition shuffled_state : TrainState :=
  {| data := [[5%float]; [6%float]; [7%float]; [1%float]];
     responses := [10%float; 20%float; 30%float; 0%float];
     weights := [1%float; 2%float; 3%float; 4%float] |}.

(** The data, the tree and the invocations after [Train] with
    [maximumDepth = 2]; the two children are leaves and reorder nothing,
    so the data is as the partition at the root left it. *)
Definition shuffled_state' : TrainState :=
  {| data := [[5%float]; [1%float]; [7%float]; [6%float]];
     responses := [10%float; 0%float; 30%float; 20%float];
     weights := [1%float; 2%float; 3%float; 4%float] |}.

Definition shuffled_node : XGBTree :=
  mkXGBTree [leaf 5 (-50); leaf 25 (-50)] (splitDimension 0) 0 [5.5%float]
    tt (-50).

Definition shuffled_call : Call :=
  mkCall 0 4 (Some (0, (-100)%float)) [leaf_call 0 2 50; leaf_call 2 2 50] 50.

Definition shuffled_notifications : list Notification :=
  [increaseFeatureFrequency 0 1; increaseFeatureCover 0 (-100)].

Definition shuffled_result (sink : option FeatureImportance) : TrainResult :=
  (50%float, shuffled_node, shuffled_state', sink, shuffled_call).

(** A tree of three levels with the gains [-1], [-5], [-2] below a root
    of gain [-3]: the node of gain [-5] is the first child of the root
    and has the leaf of gain [-1] as its child. *)
Definition pruning_node : XGBTree :=
  mkXGBTree
    [mkXGBTree [leaf 7 (-1)] (splitDimension 0) 0 [0.5%float] tt (-5);
     leaf 9 (-2)]
    (splitDimension 0) 0 [2.5%float] tt (-3).

(** A third data set, with two features: the first is the same in every
    sample, so [Train] splits on dimension 1, between 2 and 3. *)
Definition planar_state : TrainState :=
  {| data := [[0%float; 1%float]; [0%float; 2%float];
              [0%float; 3%float]; [0%float; 4%float]];
     responses := [0%float; 0%float; 10%float; 10%float];
     weights := [] |}.

Definition planar_node : XGBTree :=
  mkXGBTree [leaf 0 (-0); leaf 10 (-0)] (splitDimension 1) 0 [2.5%float]
    tt 0.

Definition planar_call : Call :=
  mkCall 0 4 (Some (1, (-0)%float)) [leaf_call 0 2 0; leaf_call 2 2 0] (-0).

Definition planar_result : TrainResult :=
  ((-0)%float, planar_node, planar_state, None, planar_call).

End Reference.

(** * Properties *)

(** ** Comparison of doubles *)

Lemma SFcompare_antisym (a b : spec_float) :
  SFcompare b a = CompOpp <$> SFcompare a b.
Proof.
  destruct a as [[]|[]| |[] m e], b as [[]|[]| |[] m' e'];
    simpl; try reflexivity.
  all: rewrite (Z.compare_antisym e e'); destruct (e ?= e')%Z;
    simpl; try reflexivity.
  all: change (Pos.compare_cont Eq) with Pos.compare;
    rewrite (Pos.compare_antisym m m'); destruct (m ?= m')%positive;
    reflexivity.
Qed.

(** [<] on doubles is asymmetric (also with infinities and NaN). *)
Lemma ltb_asym (x y : float) :
  (x <? y)%float = true → (y <? x)%float = false.
Proof.
  rewrite !ltb_spec. unfold SFltb.
  rewrite (SFcompare_antisym (Prim2SF x)).
  destruct (SFcompare (Prim2SF x) (Prim2SF y)) as [[]|]; simpl; congruence.
Qed.

(** ** Lists, swaps and reorderings *)

Section Lists.
Context {A : Type}.
Implicit Types l : list A.

Lemma swap_length l i j : length (swap l i j) = length l.
Proof.
  unfold swap. destruct (l !! i), (l !! j); try done.
  by rewrite !length_insert.
Qed.

(** What [swap] leaves at each index. *)
Lemma swap_lookup l i j k :
  i < length l → j < length l →
  swap l i j !! k =
    if decide (k = i) then l !! j
    else if decide (k = j) then l !! i else l !! k.
Proof.
  intros Hi Hj. unfold swap.
  destruct (lookup_lt_is_Some_2 l i Hi) as [x Hx].
  destruct (lookup_lt_is_Some_2 l j Hj) as [y Hy].
  rewrite Hx, Hy.
  destruct (decide (k = i)) as [->|Hki].
  { by rewrite list_lookup_insert_eq by (by rewrite length_insert). }
  rewrite list_lookup_insert_ne by done.
  destruct (decide (k = j)) as [->|Hkj].
  { by rewrite list_lookup_insert_eq. }
  by rewrite list_lookup_insert_ne.
Qed.

Lemma swap_lookup_ne l i j k : k ≠ i → k ≠ j → swap l i j !! k = l !! k.
Proof.
  intros Hi Hj. unfold swap.
  destruct (l !! i) eqn:Hx, (l !! j) eqn:Hy; try done.
  by rewrite !list_lookup_insert_ne.
Qed.

(** A swap is a permutation: the transposition of the two indices. *)
Lemma swap_Permutation l i j : swap l i j ≡ₚ l.
Proof.
  destruct (decide (i < length l ∧ j < length l)) as [[Hi Hj]|Hn].
  - apply Permutation_inj. split; [apply swap_length|].
    exists (λ k, if decide (k = i) then j else if decide (k = j) then i else k).
    split.
    + intros a b. repeat case_decide; lia.
    + intros k. rewrite swap_lookup by done.
      repeat case_decide; by subst.
  - unfold swap. destruct (l !! i) eqn:Hx; [|done].
    destruct (l !! j) eqn:Hy; [|done].
    apply lookup_lt_Some in Hx, Hy. lia.
Qed.

Lemma swap_cols_Some l i j l' :
  swap_cols l i j = Some l' ↔ i < length l ∧ j < length l ∧ l' = swap l i j.
Proof.
  unfold swap_cols. case_decide as Hd; [|split; [done|tauto]].
  destruct Hd. split; [by intros [= <-]|by intros (_ & _ & ->)].
Qed.

End Lists.

(** Swapping two lists at the same indices swaps their pairs. *)
Lemma swap_zip {A B} (l : list A) (k : list B) i j :
  i < length l → j < length l → i < length k → j < length k →
  zip (swap l i j) (swap k i j) = swap (zip l k) i j.
Proof.
  intros. apply list_eq. intros n.
  rewrite lookup_zip_with, !swap_lookup, !lookup_zip_with
    by (rewrite ?length_zip_with; lia).
  repeat case_decide; done.
Qed.

Lemma slice_decompose {A} b c (l : list A) :
  l = take b l ++ slice b c l ++ drop (b + c) l.
Proof.
  unfold slice. rewrite <- drop_drop, take_drop.
  by rewrite take_drop.
Qed.

Lemma slice_lookup {A} b c (l : list A) k :
  slice b c l !! k = if decide (k < c) then l !! (b + k) else None.
Proof.
  unfold slice. case_decide.
  - by rewrite lookup_take_lt, lookup_drop.
  - by rewrite lookup_take_ge by lia.
Qed.

(** A permutation that moves nothing outside a range permutes the range. *)
Lemma slice_Permutation {A} b c (l l' : list A) :
  l' ≡ₚ l →
  (∀ k, ¬ (b ≤ k < b + c) → l' !! k = l !! k) →
  slice b c l' ≡ₚ slice b c l.
Proof.
  intros Hp Hout.
  assert (Ht : take b l' = take b l).
  { apply list_eq. intros k. destruct (decide (k < b)).
    - rewrite !lookup_take_lt by done. apply Hout. lia.
    - by rewrite !lookup_take_ge by lia. }
  assert (Hd : drop (b + c) l' = drop (b + c) l).
  { apply list_eq. intros k. rewrite !lookup_drop. apply Hout. lia. }
  rewrite (slice_decompose b c l), (slice_decompose b c l') in Hp.
  rewrite Ht, Hd in Hp.
  apply (inj (take b l ++.)) in Hp.
  by apply (inj (.++ drop (b + c) l)) in Hp.
Qed.

Lemma slice_zip {A B} b c (l : list A) (k : list B) :
  slice b c (zip l k) = zip (slice b c l) (slice b c k).
Proof. unfold slice. by rewrite zip_with_drop, zip_with_take. Qed.

Lemma slice_length {A} b c (l : list A) :
  b + c ≤ length l → length (slice b c l) = c.
Proof. intros. unfold slice. rewrite length_take, length_drop. lia. Qed.

Lemma pairs_lookup st k :
  pairs st !! k =
    col ← data st !! k; r ← responses st !! k; Some (col, r).
Proof.
  unfold pairs. rewrite lookup_zip_with.
  destruct (data st !! k); simpl; [|done]. by destruct (responses st !! k).
Qed.

Lemma Reorders_refl b c st : Reorders b c st st.
Proof. by split. Qed.

Lemma Reorders_trans b c st1 st2 st3 :
  Reorders b c st1 st2 → Reorders b c st2 st3 → Reorders b c st1 st3.
Proof.
  intros [p1 d1 r1 od1 or1 w1] [p2 d2 r2 od2 or2 w2]. split.
  - by rewrite p2.
  - by rewrite d2.
  - by rewrite r2.
  - intros k Hk. by rewrite od2, od1.
  - intros k Hk. by rewrite or2, or1.
  - by rewrite w2.
Qed.

Lemma Reorders_widen b c b' c' st st' :
  b ≤ b' → b' + c' ≤ b + c → Reorders b' c' st st' → Reorders b c st st'.
Proof.
  intros ?? [p d r od or w]. split; try done.
  - intros k Hk. apply od. lia.
  - intros k Hk. apply or. lia.
Qed.

(** One step of the partition: the same two columns are exchanged in the
    feature matrix and in the responses. *)
Lemma Reorders_swap b c st i j data' responses' :
  b ≤ i < b + c → b ≤ j < b + c →
  swap_cols (data st) i j = Some data' →
  swap_cols (responses st) i j = Some responses' →
  Reorders b c st
    {| data := data'; responses := responses'; weights := weights st |}.
Proof.
  intros Hi Hj (? & ? & ->)%swap_cols_Some (? & ? & ->)%swap_cols_Some.
  split; simpl; try done.
  - unfold pairs. simpl. rewrite swap_zip by done. apply swap_Permutation.
  - apply swap_Permutation.
  - apply swap_Permutation.
  - intros k Hk. apply swap_lookup_ne; lia.
  - intros k Hk. apply swap_lookup_ne; lia.
Qed.

Lemma Reorders_pairs_slice b c st st' :
  Reorders b c st st' →
  zip (slice b c (data st')) (slice b c (responses st')) ≡ₚ
  zip (slice b c (data st)) (slice b c (responses st)).
Proof.
  intros [p d r od or w]. rewrite <- !slice_zip.
  apply slice_Permutation; [done|].
  intros k Hk. fold (pairs st') (pairs st). rewrite !pairs_lookup.
  by rewrite od, or.
Qed.

Lemma Reorders_data_slice b c st st' :
  Reorders b c st st' → slice b c (data st') ≡ₚ slice b c (data st).
Proof. intros []. by apply slice_Permutation. Qed.

Lemma Reorders_slice_inside b c b' c' st st' :
  Reorders b c st st' → (b' + c' ≤ b ∨ b + c ≤ b') →
  slice b' c' (data st') = slice b' c' (data st).
Proof.
  intros [p d r od or w] Hd. apply list_eq. intros k.
  rewrite !slice_lookup. case_decide; [|done]. apply od. lia.
Qed.

Section Pass.
Variable dir : list float → option nat.

(** The inner loop for child [i], entered at column [j] with the cursor at
    [cur] in a pass that began at [col0]: the columns from [col0] to the
    cursor are assigned to [i], those from the cursor to [j] are not.  At
    the end the block of [i] reaches to the final cursor, nothing after it
    is assigned to [i], nothing before [col0] has moved, and assignments,
    columns and responses were reordered together. *)
Lemma PartitionPass_spec i begin e col0 n :
  ∀ j ca st cur ca' st' cur',
  PartitionPass i begin (seq j n) ca st cur = Some (ca', st', cur') →
  j + n = e → begin ≤ col0 ≤ cur → cur ≤ j → length ca = e - begin →
  (∀ k, col0 ≤ begin + k < cur → ca !! k = Some i) →
  (∀ k a, cur ≤ begin + k < j → ca !! k = Some a → a ≠ i) →
  Lockstep dir begin col0 ca st →
  cur ≤ cur' ≤ e ∧ length ca' = length ca ∧ ca' ≡ₚ ca ∧
  Reorders col0 (e - col0) st st' ∧
  (∀ k, begin + k < col0 → ca' !! k = ca !! k) ∧
  (∀ k, col0 ≤ begin + k < cur' → ca' !! k = Some i) ∧
  (∀ k a, cur' ≤ begin + k → ca' !! k = Some a → a ≠ i) ∧
  Lockstep dir begin col0 ca' st'.
Proof.
  induction n as [|n IH]; intros j ca st cur ca' st' cur' Hrun He Hcol Hj Hlen
    Hdone Hskip Hlock.
  { simpl in Hrun. injection Hrun as <- <- <-.
    split_and!; try done; try lia; try apply Reorders_refl.
    intros k a Hk Hka. apply (Hskip k a); [|done].
    apply lookup_lt_Some in Hka. lia. }
  simpl in Hrun.
  destruct (ca !! (j - begin)) as [a|] eqn:Ha; simpl in Hrun; [|done].
  destruct (decide (a = i)) as [->|Hai].
  - destruct (swap_cols ca (cur - begin) (j - begin)) as [ca1|] eqn:Hca1;
      simpl in Hrun; [|done].
    destruct (swap_cols (data st) cur j) as [data1|] eqn:Hd1;
      simpl in Hrun; [|done].
    destruct (swap_cols (responses st) cur j) as [resp1|] eqn:Hr1;
      simpl in Hrun; [|done].
    pose proof (Reorders_swap col0 (e - col0) st cur j data1 resp1
      ltac:(lia) ltac:(lia) Hd1 Hr1) as Hre.
    apply swap_cols_Some in Hca1 as (Hc1 & Hc2 & ->).
    apply swap_cols_Some in Hd1 as (Hd1 & Hd2 & ->).
    apply swap_cols_Some in Hr1 as (Hr1 & Hr2 & ->).
    apply IH in Hrun; try (rewrite ?swap_length; lia).
    + destruct Hrun as (? & Hl & Hp & Hre' & Hpre & Hdone' & Hskip' & Hlock').
      rewrite swap_length in Hl.
      split_and!; try done; try lia.
      * by rewrite Hp, swap_Permutation.
      * by eapply Reorders_trans.
      * intros k Hk. rewrite Hpre by done. apply swap_lookup_ne; lia.
    + intros k Hk. rewrite swap_lookup by done.
      destruct (decide (k = cur - begin)); [done|].
      destruct (decide (k = j - begin)); [lia|]. apply Hdone. lia.
    + intros k a Hk. rewrite swap_lookup by done.
      destruct (decide (k = cur - begin)); [lia|].
      destruct (decide (k = j - begin)) as [->|].
      * apply Hskip. lia.
      * apply Hskip. lia.
    + intros k a Hk. rewrite swap_lookup by done. simpl.
      rewrite swap_lookup by done.
      destruct (decide (k = cur - begin)) as [->|].
      { rewrite (decide_True (P := begin + (cur - begin) = cur)) by lia.
        intros Hka.
        destruct (Hlock (j - begin) a) as (col & Hcol' & Hdir); [lia|done|].
        exists col. split; [|done]. rewrite <- Hcol'. f_equal. lia. }
      rewrite (decide_False (P := begin + k = cur)) by lia.
      destruct (decide (k = j - begin)) as [->|].
      { rewrite (decide_True (P := begin + (j - begin) = j)) by lia.
        intros Hka.
        destruct (Hlock (cur - begin) a) as (col & Hcol' & Hdir); [lia|done|].
        exists col. split; [|done]. rewrite <- Hcol'. f_equal. lia. }
      rewrite (decide_False (P := begin + k = j)) by lia. by apply Hlock.
  - apply IH in Hrun; try done; try lia.
    intros k a' Hk Hka. destruct (decide (k = j - begin)) as [->|].
    + congruence.
    + apply (Hskip k a'); [lia|done].
Qed.

End Pass.

Section Counting.

(** The counting loop succeeds only when every assignment is below the
    number of children, and it counts the occurrences of each child. *)
Lemma CountChildren_spec (l : list nat) :
  ∀ cc cc', CountChildren cc l = Some cc' →
  length cc' = length cc ∧ Forall (λ a, a < length cc) l ∧
  ∀ i, cc' !! i = (λ n, n + length (filter (λ a, a = i) l)) <$> cc !! i.
Proof.
  induction l as [|a l IH]; intros cc cc' Hrun; simpl in Hrun.
  { injection Hrun as <-. split_and!; [done|constructor|].
    intros i. destruct (cc !! i); simpl; [|done]. f_equal. lia. }
  destruct (cc !! a) as [n|] eqn:Ha; simpl in Hrun; [|done].
  apply IH in Hrun as (Hlen & Hall & Hcount). rewrite length_insert in *.
  split_and!; [done| |].
  - constructor; [by eapply lookup_lt_Some|done].
  - intros i. rewrite Hcount. destruct (decide (i = a)) as [->|Hia].
    + rewrite list_lookup_insert_eq by (by eapply lookup_lt_Some).
      rewrite Ha, filter_cons_True by done. simpl. f_equal. lia.
    + rewrite list_lookup_insert_ne by done.
      by rewrite filter_cons_False by done.
Qed.

Lemma filter_none {A} (P : A → Prop) `{∀ x, Decision (P x)} (l : list A) :
  Forall (λ x, ¬ P x) l → filter P l = [].
Proof.
  induction 1; [done|]. by rewrite filter_cons_False.
Qed.

Lemma filter_all {A} (P : A → Prop) `{∀ x, Decision (P x)} (l : list A) :
  Forall P l → filter P l = l.
Proof.
  induction 1; [done|]. rewrite filter_cons_True by done. by f_equal.
Qed.

(** A list made of entries other than [i], then a block of [i], then
    entries other than [i] holds as many [i] as the block is long. *)
Lemma count_block (ca : list nat) i p q :
  p ≤ q ≤ length ca →
  (∀ k a, k < p → ca !! k = Some a → a ≠ i) →
  (∀ k, p ≤ k < q → ca !! k = Some i) →
  (∀ k a, q ≤ k → ca !! k = Some a → a ≠ i) →
  length (filter (λ a, a = i) ca) = q - p.
Proof.
  intros Hpq Hpre Hmid Hpost.
  rewrite (slice_decompose p (q - p) ca), !filter_app, !length_app.
  rewrite filter_none, filter_all, filter_none; simpl.
  - rewrite slice_length; lia.
  - apply Forall_lookup. intros k a. rewrite lookup_drop.
    apply Hpost. lia.
  - apply Forall_lookup. intros k a. rewrite slice_lookup.
    case_decide; [|done]. rewrite Hmid by lia. congruence.
  - apply Forall_lookup. intros k a Hk.
    apply lookup_take_Some in Hk as [Hk ?]. by apply (Hpre k).
Qed.

Lemma drop_Permutation {A} p (l l' : list A) :
  l' ≡ₚ l → (∀ k, k < p → l' !! k = l !! k) → drop p l' ≡ₚ drop p l.
Proof.
  intros Hp Hpre.
  assert (Ht : take p l' = take p l).
  { apply list_eq. intros k. destruct (decide (k < p)).
    - rewrite !lookup_take_lt by done. by apply Hpre.
    - by rewrite !lookup_take_ge by lia. }
  rewrite <- (take_drop p l), <- (take_drop p l'), Ht in Hp.
  by apply (inj (take p l ++.)) in Hp.
Qed.

End Counting.

Section Tiling.
Context `{C : Collaborators}.

Lemma Tiles_snoc b ks e k :
  Tiles b ks e → call_begin k = e → Tiles b (ks ++ [k]) (e + call_count k).
Proof.
  revert b. induction ks as [|k' ks IH]; intros b; simpl.
  - intros ->. done.
  - intros [-> Ht] He. split; [done|]. by apply IH.
Qed.

Lemma Tiles_le b ks e : Tiles b ks e → b ≤ e.
Proof.
  revert b. induction ks as [|k ks IH]; simpl; intros b.
  - lia.
  - intros [_ Ht]. apply IH in Ht. lia.
Qed.

Lemma Tiles_inside b ks e i k :
  Tiles b ks e → ks !! i = Some k →
  b ≤ call_begin k ∧ call_begin k + call_count k ≤ e.
Proof.
  revert b i. induction ks as [|k' ks IH]; intros b i; simpl; [done|].
  intros [<- Ht]. destruct i as [|i]; simpl.
  - intros [= ->]. apply Tiles_le in Ht. lia.
  - intros Hk. destruct (IH _ _ Ht Hk). lia.
Qed.

End Tiling.

Section Loop.
Context `{C : Collaborators}.
Variable train_child : Trainer.
Hypothesis train_child_good : GoodTrainer train_child.
Variable dir : list float → option nat.
Variables (begin count numChildren : nat) (childCounts ca0 : list nat).
Variable st0 : TrainState.
Hypothesis childCounts_spec :
  ∀ i, i < numChildren →
    childCounts !! i = Some (length (filter (λ a, a = i) ca0)).

(** One round of the loop over the children (the pass for child [i0],
    its training, the accumulation) keeps the invariant. *)
Lemma SplitIntoChildren_step i0 s ca1 st1 col1 childGain child st2 sink2
    call n0 :
  i0 < numChildren →
  LoopInv dir begin count i0 ca0 st0 s →
  PartitionPass i0 begin
    (seq (currentCol s) (begin + count - currentCol s))
    (childAssignments s) (state s) (currentCol s) = Some (ca1, st1, col1) →
  train_child fresh st1 (currentCol s) (col1 - currentCol s) (featImp s) =
    Some (childGain, child, st2, sink2, call) →
  childCounts !! i0 = Some n0 →
  LoopInv dir begin count (S i0) ca0 st0
    {| childAssignments := ca1; state := st2; currentCol := col1;
       bestGain :=
         (bestGain s + double_of_size_t n0 / double_of_size_t count
                       * (- childGain))%float;
       built := built s ++ [child]; featImp := sink2;
       calls := calls s ++ [call] |}.
Proof using train_child_good childCounts_spec.
  intros Hi0 Hinv Hpass Htc Hn0.
  destruct Hinv as [Hlen Hcol Hperm Hplaced Hrest Hlock Hre Hcalls Htiles
    Hbuilt Hgain Hgrouped].
  set (col := currentCol s) in *. set (ca := childAssignments s) in *.
  eapply (PartitionPass_spec dir i0 begin (begin + count) col) in Hpass;
    [|lia|lia|lia|lia|intros; lia|intros; lia|done].
  destruct Hpass as (Hcol1 & Hlen1 & Hperm1 & Hre1 & Hpre & Hdone & Hskip
    & Hlock1).
  apply train_child_good in Htc as [_ _ Hkb Hkc Hkr Hre2 Hnodes _].
  assert (Hcount : n0 = col1 - col).
  { rewrite childCounts_spec in Hn0 by done. injection Hn0 as <-.
    rewrite <- Hperm, <- Hperm1.
    rewrite (count_block ca1 i0 (col - begin) (col1 - begin)); [lia|lia|..].
    - intros k a Hk Hka. rewrite Hpre in Hka by lia.
      assert (a < i0) by (apply (Hplaced k a); [lia|done]). lia.
    - intros k Hk. apply Hdone. lia.
    - intros k a Hk. apply Hskip. lia. }
  split; simpl.
  - lia.
  - lia.
  - by rewrite Hperm1.
  - intros k a Hk Hka. destruct (decide (begin + k < col)).
    + rewrite Hpre in Hka by done. apply Hplaced in Hka; lia.
    + rewrite Hdone in Hka by lia. injection Hka as <-. lia.
  - intros k a Hk Hka.
    assert (a ≠ i0) by by apply (Hskip k a).
    assert (i0 ≤ a); [|lia].
    assert (Hall : Forall (λ a, i0 ≤ a) (drop (col - begin) ca1)).
    { rewrite (drop_Permutation (col - begin) ca ca1); [|done|].
      - apply Forall_lookup. intros k' a'. rewrite lookup_drop.
        apply Hrest. lia.
      - intros k' Hk'. apply Hpre. lia. }
    rewrite Forall_lookup in Hall. apply (Hall (k - (col - begin))).
    rewrite lookup_drop. rewrite <- Hka. f_equal. lia.
  - intros k a Hk Hka. destruct (Hlock1 k a) as (c & Hc & Hd); [lia|done|].
    exists c. split; [|done].
    rewrite (reorders_data_outside _ _ _ _ Hre2) by lia. done.
  - eapply Reorders_trans; [done|]. eapply Reorders_trans.
    + eapply Reorders_widen; [| |exact Hre1]; lia.
    + eapply Reorders_widen; [| |exact Hre2]; lia.
  - rewrite length_app. simpl. lia.
  - replace col1 with (col + call_count call) by lia.
    by apply Tiles_snoc.
  - apply Forall2_app; [done|]. by constructor.
  - unfold WeightedGain. rewrite foldl_snoc. fold (WeightedGain count (calls s)).
    by rewrite <- Hgain, Hkc, Hkr, Hcount.
  - intros i kc Hi. apply lookup_snoc_Some in Hi as [[Hlt Hi]|[-> ->]].
    + destruct (Tiles_inside _ _ _ _ _ Htiles Hi).
      rewrite (Reorders_slice_inside _ _ _ _ _ _ Hre2) by lia.
      rewrite (Reorders_slice_inside _ _ _ _ _ _ Hre1) by lia.
      by apply Hgrouped.
    + rewrite Hkb, Hkc, Hcalls.
      rewrite (Reorders_data_slice _ _ _ _ Hre2).
      apply Forall_lookup. intros k c. rewrite slice_lookup.
      case_decide; [|done]. intros Hc.
      destruct (Hlock1 (col + k - begin) i0) as (c' & Hc' & Hd); [lia| |].
      * apply Hdone. lia.
      * replace (begin + (col + k - begin)) with (col + k) in Hc' by lia.
        congruence.
Qed.

Lemma SplitIntoChildren_spec n :
  ∀ i0 s s',
  SplitIntoChildren train_child begin count childCounts (seq i0 n) s
    = Some s' →
  i0 + n = numChildren →
  LoopInv dir begin count i0 ca0 st0 s →
  LoopInv dir begin count numChildren ca0 st0 s'.
Proof using train_child_good childCounts_spec.
  induction n as [|n IH]; intros i0 s s' Hrun Hn Hinv; simpl in Hrun.
  { injection Hrun as <-. by replace numChildren with i0 by lia. }
  destruct (PartitionPass _ _ _ _ _ _) as [[[ca1 st1] col1]|] eqn:Hpass;
    simpl in Hrun; [|done].
  destruct (train_child _ _ _ _ _) as [[[[[childGain child] st2] sink2] call]|]
    eqn:Htc; simpl in Hrun; [|done].
  destruct (childCounts !! i0) as [n0|] eqn:Hn0; simpl in Hrun; [|done].
  eapply IH; [exact Hrun|lia|].
  eapply SplitIntoChildren_step; eauto. lia.
Qed.

End Loop.

Section TrainSound.
Context `{C : Collaborators}.
Variable datasetInfo : DatasetInfo.
Variable minimumLeafSize : nat.
Variable minimumGainSplit : float.
Variable dimensionSelector : nat.

Lemma cols_Some {A} (l : list A) b c r :
  cols l b c = Some r ↔ 0 < c ∧ b + c ≤ length l ∧ r = slice b c l.
Proof.
  unfold cols. case_decide as Hd; [|split; [done|tauto]].
  destruct Hd. split; [by intros [= <-]|by intros (_ & _ & ->)].
Qed.

Lemma CalculateAssignments_spec st begin count bestDim info ax ca :
  CalculateAssignments datasetInfo st begin count bestDim info ax = Some ca →
  length ca = count ∧
  Lockstep (direction datasetInfo bestDim info ax) begin begin ca st.
Proof.
  intros Hrun%mapM_Some_1. split.
  { apply Forall2_length in Hrun. by rewrite length_seq in Hrun. }
  intros k a _ Hka.
  destruct (Forall2_lookup_r _ _ _ _ _ Hrun Hka) as (j & Hj & Hf).
  apply lookup_seq in Hj as [-> _].
  destruct (data st !! (begin + k)) as [col|]; simpl in Hf; [|done].
  exists col. split; [done|]. unfold direction.
  by destruct (col !! bestDim).
Qed.

Lemma CalculateDirection_direction cs bestDim info ax gain col :
  CalculateDirection
    (mkXGBTree cs (splitDimension bestDim)
       (size_t_of_Datatype (Type_ datasetInfo bestDim)) info ax gain) col =
  direction datasetInfo bestDim info ax col.
Proof.
  unfold CalculateDirection, direction. simpl.
  destruct (col !! bestDim); simpl; [|done].
  by destruct (Type_ datasetInfo bestDim).
Qed.

Lemma BestSplit_range maximumDepth this st b c r :
  BestSplit datasetInfo minimumLeafSize minimumGainSplit dimensionSelector
    maximumDepth this st b c = Some r →
  0 < c ∧ b + c ≤ length (responses st).
Proof.
  unfold BestSplit. intros Hrun.
  destruct (cols (responses st) b c) as [resp|] eqn:Hresp; [|done].
  apply cols_Some in Hresp. tauto.
Qed.

(** The body of [Train] is sound when the training of the children is. *)
Lemma TrainBody_good train_child maximumDepth :
  GoodTrainer train_child →
  GoodTrainer
    (TrainBody datasetInfo minimumLeafSize minimumGainSplit
       dimensionSelector train_child maximumDepth).
Proof.
  intros Htc this st b c sink g t st' sink' k Hrun. unfold TrainBody in Hrun.
  destruct (BestSplit _ _ _ _ _ _ _ _ _) as [[[[bestDim g1] info] ax]|]
    eqn:Hbest; simpl in Hrun; [|done].
  apply BestSplit_range in Hbest as [Hc Hrange].
  destruct (decide (bestDim ≠ Dimensionality datasetInfo)) as [Hsplit|_].
  - destruct (CalculateAssignments _ _ _ _ _ _ _) as [ca0|] eqn:Hca;
      simpl in Hrun; [|done].
    destruct (CountChildren _ _) as [childCounts|] eqn:Hcc;
      simpl in Hrun; [|done].
    destruct (SplitIntoChildren _ _ _ _ _ _) as [s|] eqn:Hloop;
      simpl in Hrun; [|done].
    injection Hrun as <- <- <- <- <-.
    apply CalculateAssignments_spec in Hca as [Hlen Hlock].
    apply CountChildren_spec in Hcc as (_ & Hlt & Hcounts).
    rewrite length_replicate in Hlt.
    set (numChildren := match Type_ datasetInfo bestDim with
                        | numeric => _ | categorical => _ end) in *.
    eapply (SplitIntoChildren_spec train_child Htc
      (direction datasetInfo bestDim info ax) b c numChildren childCounts
      ca0 st) in Hloop; [| |done|].
    + destruct Hloop as [Hlen' Hcol Hperm _ Hrest _ Hre Hcalls Htiles
        Hbuilt Hgain Hgrouped].
      assert (Hend : currentCol s = b + c).
      { destruct (decide (currentCol s = b + c)); [done|].
        destruct (lookup_lt_is_Some_2 (childAssignments s)
          (currentCol s - b)) as [a Ha]; [lia|].
        assert (numChildren ≤ a)
          by (apply (Hrest (currentCol s - b) a); [lia|done]).
        rewrite <- Hperm in Hlt. rewrite Forall_lookup in Hlt.
        apply Hlt in Ha. lia. }
      rewrite Hend in Htiles.
      split; simpl; try done.
      * constructor; [|done]. unfold Sound. simpl. split_and!; try done.
        intros Hnil. rewrite Hnil in Hbuilt.
        apply Forall2_nil_inv_l in Hbuilt. rewrite Hbuilt in Htiles.
        simpl in Htiles. lia.
      * intros i kc Hi. simpl in Hi.
        eapply Forall_impl; [by apply Hgrouped|]. intros col Hd. simpl in Hd.
        by rewrite CalculateDirection_direction.
    + intros i Hi. rewrite Hcounts, lookup_replicate_2 by done. done.
    + split; simpl; try done; try lia; try apply Reorders_refl.
  - destruct (cols (responses st) b c) as [resp|]; simpl in Hrun; [|done].
    injection Hrun as <- <- <- <- <-.
    split; simpl; try done; try apply Reorders_refl.
    constructor; [|constructor]. unfold Sound. simpl.
    split_and!; eauto.
Qed.

Lemma TrainLevels_good levels :
  ∀ maximumDepth,
  GoodTrainer
    (TrainLevels datasetInfo minimumLeafSize minimumGainSplit
       dimensionSelector levels maximumDepth).
Proof.
  induction levels as [|levels IH]; intros maximumDepth; simpl;
    apply TrainBody_good.
  - intros ???????????. done.
  - apply IH.
Qed.

Lemma Train_good maximumDepth :
  GoodTrainer
    (Train datasetInfo minimumLeafSize minimumGainSplit dimensionSelector
       maximumDepth).
Proof. apply TrainLevels_good. Qed.

End TrainSound.

Section Sink.
Context `{C : Collaborators}.

Lemma notify_nil sink : notify sink [] = sink.
Proof. destruct sink; simpl; [|done]. by rewrite app_nil_r. Qed.

Lemma notify_notify sink l1 l2 :
  notify (notify sink l1) l2 = notify sink (l1 ++ l2).
Proof. destruct sink; simpl; [|done]. by rewrite app_assoc. Qed.

Lemma SplitIntoChildren_calls train_child begin count childCounts todo :
  ∀ s s',
  SplitIntoChildren train_child begin count childCounts todo s = Some s' →
  ∃ new, calls s' = calls s ++ new.
Proof.
  induction todo as [|i todo IH]; intros s s' Hrun; simpl in Hrun.
  { injection Hrun as <-. exists []. by rewrite app_nil_r. }
  destruct (PartitionPass _ _ _ _ _ _) as [[[ca1 st1] col1]|];
    simpl in Hrun; [|done].
  destruct (train_child _ _ _ _ _) as [[[[[childGain child] st2] sink2] call]|];
    simpl in Hrun; [|done].
  destruct (childCounts !! i) as [n0|]; simpl in Hrun; [|done].
  apply IH in Hrun as [new Hnew]. simpl in Hnew.
  exists (call :: new). by rewrite Hnew, <- app_assoc.
Qed.

(** The loop over the children with any sink is the loop with the null
    sink, plus the calls of the children trained in it. *)
Lemma SplitIntoChildren_sink train_child begin count childCounts todo :
  SinkOblivious train_child →
  ∀ s,
  SplitIntoChildren train_child begin count childCounts todo s =
    (λ s', set_featImp
       (notify (featImp s)
          (flat_map notifications (drop (length (calls s)) (calls s')))) s')
    <$> SplitIntoChildren train_child begin count childCounts todo
          (set_featImp None s).
Proof.
  intros Htc. induction todo as [|i todo IH]; intros s; simpl.
  { rewrite drop_all. simpl. rewrite notify_nil. by destruct s. }
  destruct (PartitionPass _ _ _ _ _ _) as [[[ca1 st1] col1]|]; [|done].
  simpl. rewrite (Htc _ _ _ _ (featImp s)).
  pose proof (Htc fresh st1 (currentCol s) (col1 - currentCol s) None)
    as Hnone.
  destruct (train_child _ _ _ _ None)
    as [[[[[childGain child] st2] sink2] call]|]; [|done].
  injection Hnone as ->.
  simpl. destruct (childCounts !! i) as [n0|]; [|done]. simpl.
  rewrite IH. simpl. unfold set_featImp at 2. simpl.
  match goal with |- _ <$> ?run = _ <$> ?run' =>
    change run' with run; destruct run as [s'|] eqn:Hrun end; [|done].
  simpl. f_equal. f_equal.
  apply SplitIntoChildren_calls in Hrun as [new Hnew]. simpl in Hnew.
  rewrite notify_notify. f_equal. rewrite Hnew.
  rewrite drop_app_length. rewrite <- app_assoc, drop_app_length.
  simpl. done.
Qed.

Section SinkTrain.
Variable datasetInfo : DatasetInfo.
Variable minimumLeafSize : nat.
Variable minimumGainSplit : float.
Variable dimensionSelector : nat.

Lemma TrainBody_sink train_child maximumDepth :
  SinkOblivious train_child →
  SinkOblivious
    (TrainBody datasetInfo minimumLeafSize minimumGainSplit
       dimensionSelector train_child maximumDepth).
Proof.
  intros Htc this st b c sink. unfold TrainBody.
  destruct (BestSplit _ _ _ _ _ _ _ _ _) as [[[[bestDim g1] info] ax]|];
    [|done].
  simpl. destruct (decide (bestDim ≠ Dimensionality datasetInfo)).
  - destruct (CalculateAssignments _ _ _ _ _ _ _) as [ca0|]; [|done].
    simpl. destruct (CountChildren _ _) as [childCounts|]; [|done].
    simpl. rewrite SplitIntoChildren_sink by done.
    unfold set_featImp at 2. simpl.
    match goal with |- (_ <$> ?run) ≫= _ = _ <$> (?run' ≫= _) =>
      change run' with run; destruct run as [s'|] end; [|done].
    simpl. rewrite drop_0. unfold notify.
    destruct sink; simpl; [|done]. by rewrite <- app_assoc.
  - destruct (cols (responses st) b c); [|done]. simpl.
    by rewrite notify_nil.
Qed.

Lemma TrainLevels_sink levels :
  ∀ maximumDepth,
  SinkOblivious
    (TrainLevels datasetInfo minimumLeafSize minimumGainSplit
       dimensionSelector levels maximumDepth).
Proof.
  induction levels as [|levels IH]; intros maximumDepth; simpl;
    apply TrainBody_sink.
  - by intros ?????.
  - apply IH.
Qed.

End SinkTrain.
End Sink.

Section Unfolding.
Context `{C : Collaborators}.

(** A property of every node follows from a stronger one. *)
Lemma EveryNode_impl (P Q : XGBTree → Call → Prop) :
  (∀ t k, P t k → Q t k) → ∀ t k, EveryNode P t k → EveryNode Q t k.
Proof.
  intros HPQ. fix IH 3. intros t k [t' k' HP Hcs]. constructor; [auto|].
  induction Hcs; constructor; auto.
Qed.

(** Ranges laid end to end cover what they span, and do not overlap. *)
Lemma Tiles_covers b ks e j :
  Tiles b ks e → (b ≤ j < e ↔ ∃ k, k ∈ ks ∧ covers k j).
Proof.
  revert b. induction ks as [|k ks IH]; intros b; simpl.
  - intros <-. split; [lia|]. by intros (k & ?%elem_of_nil & _).
  - intros [Hb Ht]. pose proof (Tiles_le _ _ _ Ht) as Hle.
    specialize (IH _ Ht). split.
    + intros Hj. destruct (decide (j < b + call_count k)).
      * exists k. split; [left|]. unfold covers. lia.
      * destruct IH as [(k' & Hk' & Hc) _]; [lia|].
        exists k'. split; [by right|done].
    + intros (k' & [->|Hk']%elem_of_cons & Hc).
      * unfold covers in Hc. lia.
      * destruct IH as [_ IH]. unfold covers in *.
        assert (b + call_count k ≤ j < e) by eauto. lia.
Qed.

Lemma Tiles_disjoint b ks e i1 i2 k1 k2 j :
  Tiles b ks e → ks !! i1 = Some k1 → ks !! i2 = Some k2 →
  covers k1 j → covers k2 j → i1 = i2.
Proof.
  revert b i1 i2. induction ks as [|k ks IH]; intros b i1 i2; simpl; [done|].
  intros [Hb Ht] H1 H2 Hc1 Hc2. unfold covers in *.
  destruct i1 as [|i1], i2 as [|i2]; simpl in *; [done| | |].
  - injection H1 as ->. apply (Tiles_inside _ _ _ _ _ Ht) in H2. lia.
  - injection H2 as ->. apply (Tiles_inside _ _ _ _ _ Ht) in H1. lia.
  - f_equal. by eapply IH.
Qed.

Section Equations.
Variable datasetInfo : DatasetInfo.
Variable minimumLeafSize : nat.
Variable minimumGainSplit : float.
Variable dimensionSelector : nat.

(** The scan returns what it was given, or a dimension it looked at. *)
Lemma ScanDimensions_result st b c dims :
  ∀ d0 g0 info0 ax0 d g info ax,
  ScanDimensions datasetInfo minimumLeafSize minimumGainSplit st b c dims
    d0 g0 info0 ax0 = Some (d, g, info, ax) →
  (d = d0 ∧ g = g0) ∨ d ∈ dims.
Proof.
  induction dims as [|i dims IH]; intros d0 g0 info0 ax0 d g info ax Hrun;
    simpl in Hrun.
  { injection Hrun as <- <- <- <-. by left. }
  destruct (cols (data st) b c) as [block|]; simpl in Hrun; [|done].
  destruct (row i block) as [feature|]; simpl in Hrun; [|done].
  destruct (cols (responses st) b c) as [resp|]; simpl in Hrun; [|done].
  assert (∃ r, r = match Type_ datasetInfo i with
    | numeric => NumericSplitIfBetter g0 feature resp (weights st)
        minimumLeafSize minimumGainSplit info0 ax0
    | categorical => CategoricalSplitIfBetter g0 feature
        (NumMappings datasetInfo i) resp (weights st)
        minimumLeafSize minimumGainSplit info0 ax0
    end) as [[[dimGain info1] ax1] Hr] by eauto.
  rewrite <- Hr in Hrun.
  destruct (dimGain =? DBL_MAX)%float.
  - apply IH in Hrun as [?|?]; [by left|right; by right].
  - destruct (0 <=? dimGain)%float.
    + injection Hrun as <- <- <- <-. right. by left.
    + apply IH in Hrun as [[-> ->]|?]; right; [by left|by right].
Qed.

(** Every level of the recursion is the body over a sound trainer. *)
Lemma TrainLevels_body levels maximumDepth :
  ∃ train_child,
    GoodTrainer train_child ∧ SinkOblivious train_child ∧
    TrainLevels datasetInfo minimumLeafSize minimumGainSplit
      dimensionSelector levels maximumDepth =
    TrainBody datasetInfo minimumLeafSize minimumGainSplit
      dimensionSelector train_child maximumDepth.
Proof.
  destruct levels as [|levels]; simpl; eexists; split_and!; try done.
  - by intros ???????????.
  - by intros ?????.
  - apply TrainLevels_good.
  - apply TrainLevels_sink.
Qed.

(** What one run of the body records: the winner of [BestSplit], and a
    leaf exactly when there is none. *)
Lemma TrainBody_split train_child maximumDepth this st b c sink g t st'
    sink' k :
  GoodTrainer train_child →
  TrainBody datasetInfo minimumLeafSize minimumGainSplit dimensionSelector
    train_child maximumDepth this st b c sink = Some (g, t, st', sink', k) →
  ∃ bestDim bestGain info ax,
    BestSplit datasetInfo minimumLeafSize minimumGainSplit dimensionSelector
      maximumDepth this st b c = Some (bestDim, bestGain, info, ax) ∧
    if decide (bestDim ≠ Dimensionality datasetInfo)
    then call_split k = Some (bestDim, bestGain) ∧ children t ≠ []
    else call_split k = None ∧ children t = [] ∧ nodeGain t = bestGain ∧
         st' = st ∧
         slot t = prediction
           (OutputLeafValue (slice b c (responses st)) (weights st)).
Proof.
  intros Htc Hrun. pose proof (TrainBody_good _ _ _ _ _ _ Htc _ _ _ _ _ _ _ _
    _ _ Hrun) as Hgood.
  unfold TrainBody in Hrun.
  destruct (BestSplit _ _ _ _ _ _ _ _ _) as [[[[bestDim g1] info] ax]|];
    simpl in Hrun; [|done].
  exists bestDim, g1, info, ax. split; [done|].
  destruct (decide (bestDim ≠ Dimensionality datasetInfo)).
  - destruct (CalculateAssignments _ _ _ _ _ _ _); simpl in Hrun; [|done].
    destruct (CountChildren _ _); simpl in Hrun; [|done].
    destruct (SplitIntoChildren _ _ _ _ _ _); simpl in Hrun; [|done].
    injection Hrun as <- <- <- <- <-.
    destruct Hgood as [_ _ _ _ _ _ Hnodes _].
    inversion Hnodes as [t k [_ [_ Hs]] _]. simpl in Hs. by destruct Hs.
  - destruct (cols (responses st) b c) as [resp|] eqn:Hresp;
      simpl in Hrun; [|done].
    apply cols_Some in Hresp as (_ & _ & ->).
    by injection Hrun as <- <- <- <- <-.
Qed.

Lemma pred_size_t_succ n :
  (0 ≤ n < 2 ^ 64)%Z → n ≠ 1%Z →
  Z.to_nat (pred_size_t n) = S (Z.to_nat (pred_size_t (pred_size_t n))).
Proof.
  intros Hn Hn1. unfold pred_size_t.
  destruct (decide (n = 0%Z)) as [->|].
  - rewrite <- Z2Nat.inj_succ by (by apply Z.mod_pos_bound).
    f_equal.
  - rewrite (Z.mod_small (n - 1)) by lia.
    rewrite (Z.mod_small (n - 1 - 1)) by lia.
    rewrite <- Z2Nat.inj_succ by lia. f_equal. lia.
Qed.

(** At [maximumDepth == 1] the body never trains a child. *)
Lemma TrainBody_depth_one train_child this st b c sink :
  TrainBody datasetInfo minimumLeafSize minimumGainSplit dimensionSelector
    train_child 1 this st b c sink =
  resp ← cols (responses st) b c;
  let gain := Evaluate resp (weights st) in
  Some ((- gain)%float,
        mkXGBTree [] (prediction (OutputLeafValue resp (weights st)))
          (dimensionType this) (splitInfo this) (aux this) gain,
        st, sink, mkCall b c None [] (- gain)%float).
Proof.
  unfold TrainBody, BestSplit.
  destruct (cols (responses st) b c) as [resp|]; [|done]. simpl.
  destruct (decide (1%Z ≠ 1%Z)); [done|]. simpl.
  by destruct (decide (Dimensionality datasetInfo ≠ Dimensionality datasetInfo)).
Qed.

Lemma TrainLevels_unfold levels maximumDepth :
  TrainLevels datasetInfo minimumLeafSize minimumGainSplit
    dimensionSelector levels maximumDepth =
  TrainBody datasetInfo minimumLeafSize minimumGainSplit dimensionSelector
    (match levels with
     | 0 => λ _ _ _ _ _, None
     | S levels' =>
         TrainLevels datasetInfo minimumLeafSize minimumGainSplit
           dimensionSelector levels' (pred_size_t maximumDepth)
     end) maximumDepth.
Proof. by destruct levels. Qed.

(** The recursion equation of [Train] in the source. *)
Lemma Train_unfold maximumDepth :
  (0 ≤ maximumDepth < 2 ^ 64)%Z →
  ∀ this st b c sink,
  Train datasetInfo minimumLeafSize minimumGainSplit dimensionSelector
    maximumDepth this st b c sink =
  TrainBody datasetInfo minimumLeafSize minimumGainSplit dimensionSelector
    (Train datasetInfo minimumLeafSize minimumGainSplit dimensionSelector
       (pred_size_t maximumDepth))
    maximumDepth this st b c sink.
Proof.
  intros Hd this st b c sink. unfold Train.
  destruct (decide (maximumDepth = 1%Z)) as [->|Hne].
  - rewrite TrainLevels_unfold. by rewrite !TrainBody_depth_one.
  - rewrite TrainLevels_unfold.
    by rewrite (pred_size_t_succ maximumDepth).
Qed.

End Equations.
End Unfolding.

(** * The claims about Prune and Predict *)

(** ** Bit patterns of doubles

    What a [size_t] reads as when its eight bytes are taken for a
    [double], in terms of the IEEE 754 decomposition [Prim2SF] of the
    result. *)

Lemma digits2_pos_size p : digits2_pos p = Pos.size p.
Proof. induction p as [p IH|p IH|]; simpl; by rewrite ?IH. Qed.

Lemma Pos_size_lt p n :
  (Z.pos p < 2 ^ Z.pos n)%Z → (Pos.size p <= n)%positive.
Proof.
  intros Hlt. pose proof (Pos.size_le p) as Hle.
  destruct (Pos.leb_spec (Pos.size p) n) as [|Hgt]; [done|].
  exfalso. assert (Hpow : (2 ^ Z.pos n * 2 ≤ 2 ^ Z.pos (Pos.size p))%Z).
  { replace (2 ^ Z.pos n * 2)%Z with (2 ^ Z.succ (Z.pos n))%Z
      by (rewrite Z.pow_succ_r; lia).
    apply Z.pow_le_mono_r; lia. }
  assert (Hz : (2 ^ Z.pos (Pos.size p) ≤ 2 * Z.pos p)%Z).
  { change 2%Z with (Z.pos 2) at 1. rewrite <- Pos2Z.inj_pow.
    change (Z.pos (2 ^ Pos.size p) ≤ Z.pos (p~0))%Z. lia. }
  lia.
Qed.

Lemma Pos_size_ge p n :
  (2 ^ Z.pos n ≤ Z.pos p)%Z → (n < Pos.size p)%positive.
Proof.
  intros Hle. pose proof (Pos.size_gt p) as Hgt.
  destruct (Pos.ltb_spec n (Pos.size p)) as [|Hge]; [done|].
  exfalso. assert (Hpow : (2 ^ Z.pos (Pos.size p) ≤ 2 ^ Z.pos n)%Z).
  { apply Z.pow_le_mono_r; lia. }
  assert (Hz : (Z.pos p < 2 ^ Z.pos (Pos.size p))%Z).
  { change 2%Z with (Z.pos 2). rewrite <- Pos2Z.inj_pow. lia. }
  lia.
Qed.

(** A mantissa below 2^52 at the exponent -1074 is a subnormal double. *)
Lemma valid_subnormal s p :
  (Z.pos p < 2 ^ 52)%Z → valid_binary (S754_finite s p (-1074)) = true.
Proof.
  intros Hp. apply (Pos_size_lt p 52) in Hp.
  unfold valid_binary, bounded, canonical_mantissa, fexp, emin, prec, emax.
  rewrite digits2_pos_size. apply andb_true_intro. split; [|done].
  apply Z.eqb_eq. lia.
Qed.

(** A mantissa of 53 bits at an exponent from -1074 to 971 is a normal
    double. *)
Lemma valid_normal s p e :
  (2 ^ 52 ≤ Z.pos p < 2 ^ 53)%Z → (-1074 ≤ e ≤ 971)%Z →
  valid_binary (S754_finite s p e) = true.
Proof.
  intros [Hlo Hhi] He. apply (Pos_size_lt p 53) in Hhi.
  apply (Pos_size_ge p 52) in Hlo.
  unfold valid_binary, bounded, canonical_mantissa, fexp, emin, prec, emax.
  rewrite digits2_pos_size. apply andb_true_intro. split.
  - apply Z.eqb_eq. lia.
  - apply Z.leb_le. lia.
Qed.

(** The sign bit, the exponent field and the fraction field make up the
    word. *)
Lemma bits_fields w :
  (0 ≤ w < 2 ^ 64)%Z →
  ((if Z.testbit w 63 then 2 ^ 63 else 0) +
   (w / 2 ^ 52) mod 2 ^ 11 * 2 ^ 52 + w mod 2 ^ 52 = w)%Z.
Proof.
  intros Hw. destruct (Z.testbit w 63) eqn:Hs.
  - apply Z.testbit_true in Hs; [|lia]. revert Hs.
    change (2 ^ 63)%Z with 9223372036854775808%Z.
    change (2 ^ 64)%Z with 18446744073709551616%Z in Hw.
    change (2 ^ 52)%Z with 4503599627370496%Z.
    change (2 ^ 11)%Z with 2048%Z.
    intros Hs. Z.div_mod_to_equations. lia.
  - apply Z.testbit_false in Hs; [|lia]. revert Hs.
    change (2 ^ 63)%Z with 9223372036854775808%Z.
    change (2 ^ 64)%Z with 18446744073709551616%Z in Hw.
    change (2 ^ 52)%Z with 4503599627370496%Z.
    change (2 ^ 11)%Z with 2048%Z.
    intros Hs. Z.div_mod_to_equations. lia.
Qed.

(** Reading eight bytes as a [double] and the [double] back as eight
    bytes gives the bytes, for every pattern but those of the NaNs (of
    which the model keeps one). *)
Lemma bits_of_double_of_bits w :
  (0 ≤ w < 2 ^ 64)%Z →
  ((w / 2 ^ 52) mod 2 ^ 11 ≠ 2047 ∨ w mod 2 ^ 52 = 0)%Z →
  bits_of_double (double_of_bits w) = w.
Proof.
  intros Hw Hnan. pose proof (bits_fields w Hw) as Hf. revert Hf.
  unfold double_of_bits, bits_of_double.
  assert (He : (0 ≤ (w / 2 ^ 52) mod 2 ^ 11 < 2 ^ 11)%Z)
    by (apply Z.mod_pos_bound; lia).
  assert (Hm : (0 ≤ w mod 2 ^ 52 < 2 ^ 52)%Z)
    by (apply Z.mod_pos_bound; lia).
  set (s := Z.testbit w 63). set (e := ((w / 2 ^ 52) mod 2 ^ 11)%Z) in *.
  set (m := (w mod 2 ^ 52)%Z) in *. clearbody s e m. intros Hf.
  destruct (Z.eqb_spec e 0) as [->|He0].
  - destruct m as [|p|p]; [| |lia].
    + rewrite Prim2SF_SF2Prim by done. lia.
    + rewrite Prim2SF_SF2Prim by (apply valid_subnormal; lia).
      rewrite (proj2 (Z.ltb_lt _ _)) by lia. lia.
  - destruct (Z.eqb_spec e 2047) as [->|He1].
    + destruct Hnan as [?|Hm0]; [done|]. rewrite Hm0 in *.
      rewrite Z.eqb_refl, Prim2SF_SF2Prim by done. lia.
    + destruct (m + 2 ^ 52)%Z as [|p|p] eqn:Hp; [lia| |lia].
      rewrite Prim2SF_SF2Prim by (apply valid_normal; lia).
      rewrite (proj2 (Z.ltb_ge _ _)) by lia. lia.
Qed.

(** A word from 1 to 2^52 - 1 reads as the subnormal [w * 2^-1074]. *)
Lemma Prim2SF_double_of_bits_subnormal w :
  (0 < w < 2 ^ 52)%Z →
  Prim2SF (double_of_bits w) = S754_finite false (Z.to_pos w) (-1074).
Proof.
  intros Hw. unfold double_of_bits.
  assert (Hs : Z.testbit w 63 = false).
  { apply Z.testbit_false; [lia|]. rewrite Z.div_small; [done|]. lia. }
  assert (He : ((w / 2 ^ 52) mod 2 ^ 11 = 0)%Z)
    by (rewrite Z.div_small by lia; done).
  rewrite Hs, He, Z.mod_small by lia.
  destruct w as [|p|p]; [lia| |lia].
  rewrite Z.eqb_refl, Prim2SF_SF2Prim by (apply valid_subnormal; lia). done.
Qed.

Lemma Prim2SF_zero : Prim2SF 0 = S754_zero false.
Proof. reflexivity. Qed.

Lemma Prim2SF_min_normal :
  Prim2SF 0x1p-1022 = S754_finite false 4503599627370496 (-1074).
Proof. reflexivity. Qed.

Lemma SFltb_same_exponent p q e :
  (p < q)%positive →
  SFltb (S754_finite false p e) (S754_finite false q e) = true.
Proof.
  intros Hpq. unfold SFltb, SFcompare. rewrite Z.compare_refl.
  change (Pos.compare_cont Eq p q) with (p ?= q)%positive.
  by rewrite (proj2 (Pos.compare_lt_iff p q) Hpq).
Qed.

(** A word from 1 to 2^52 - 1 reads as a positive double below the
    smallest normal one. *)
Lemma double_of_bits_subnormal_range w :
  (0 < w < 2 ^ 52)%Z →
  (0 <? double_of_bits w)%float = true ∧
  (double_of_bits w <? 0x1p-1022)%float = true.
Proof.
  intros Hw. rewrite !ltb_spec, (Prim2SF_double_of_bits_subnormal w Hw),
    Prim2SF_zero, Prim2SF_min_normal.
  split; [reflexivity|]. apply SFltb_same_exponent. lia.
Qed.

Section Properties.
Context `{C : Collaborators}.

(** ** Induction over trees *)

Lemma XGBTree_ind' (P : XGBTree → Prop)
    (step : ∀ cs s dt info ax gain,
        Forall P cs → P (mkXGBTree cs s dt info ax gain)) :
  ∀ t, P t.
Proof.
  fix IH 1. intros [cs s dt info ax gain]. apply step.
  induction cs as [|c cs IHcs]; constructor; [apply IH | apply IHcs].
Qed.

Lemma Prune_unfold threshold (t : XGBTree) :
  Prune threshold t =
    (mkXGBTree (PruneChildren (Prune threshold) (children t)) (slot t)
       (dimensionType t) (splitInfo t) (aux t) (nodeGain t),
     (nodeGain t <? threshold)%float).
Proof. by destruct t. Qed.

Lemma Prune_flag threshold (t : XGBTree) :
  (Prune threshold t).2 = (nodeGain t <? threshold)%float.
Proof. by rewrite Prune_unfold. Qed.

Lemma nodes_unfold (t : XGBTree) : nodes t = t :: flat_map nodes (children t).
Proof. by destruct t. Qed.

Lemma nodes_child (t c : XGBTree) : c ∈ children t → c ∈ nodes t.
Proof.
  intros Hc. rewrite nodes_unfold. right.
  apply list_elem_of_In, in_flat_map. exists c. split.
  - by apply list_elem_of_In.
  - destruct c; simpl; by left.
Qed.

Lemma nodes_trans (t c : XGBTree) :
  c ∈ children t → nodes c ⊆ nodes t.
Proof.
  intros Hc n Hn. rewrite nodes_unfold. right.
  apply list_elem_of_In, in_flat_map. exists c.
  split; by apply list_elem_of_In.
Qed.

(** A second pruning of already pruned children keeps them all. *)
Lemma PruneChildren_idem threshold (cs : list XGBTree) :
  Forall (λ c, Prune threshold (Prune threshold c).1 = Prune threshold c) cs →
  PruneChildren (Prune threshold)
    (PruneChildren (Prune threshold) cs) =
  PruneChildren (Prune threshold) cs.
Proof.
  induction 1 as [|c cs Hc _ IH]; [done|]. simpl.
  destruct (Prune threshold c) as [c' store] eqn:Hp. simpl in Hc.
  destruct store; [done|]. simpl. rewrite Hc. by rewrite IH.
Qed.

(** C7.  [Prune] is idempotent: pruning with threshold [t] a tree that
    was just pruned with [t] returns the same tree (the same children
    everywhere, and every cached member) and the same flag. *)
Theorem Prune_idempotent threshold (t : XGBTree) :
  Prune threshold (Prune threshold t).1 = Prune threshold t.
Proof.
  induction t as [cs s dt info ax gain IH] using XGBTree_ind'.
  simpl. by rewrite PruneChildren_idem.
Qed.

Lemma PruneChildren_keep_all threshold (cs : list XGBTree) :
  Forall (λ c, Prune threshold c = (c, false)) cs →
  PruneChildren (Prune threshold) cs = cs.
Proof.
  induction 1 as [|c cs Hc _ IH]; [done|]. simpl. by rewrite Hc, IH.
Qed.

Lemma PruneChildren_drop_all threshold (cs : list XGBTree) :
  Forall (λ c, (Prune threshold c).2 = true) cs →
  PruneChildren (Prune threshold) cs = [].
Proof.
  induction 1 as [|c cs Hc _ IH]; [done|]. simpl.
  destruct (Prune threshold c) as [c' store]. simpl in Hc. by subst.
Qed.

Lemma Prune_below threshold (t : XGBTree) :
  Forall (λ n, (threshold <? nodeGain n)%float = true) (nodes t) →
  Prune threshold t = (t, false).
Proof.
  induction t as [cs s dt info ax gain IH] using XGBTree_ind'.
  intros Hall. simpl. f_equal.
  - f_equal. apply PruneChildren_keep_all.
    rewrite Forall_forall in IH. apply Forall_forall. intros c Hc.
    apply IH; [done|]. rewrite Forall_forall in Hall.
    apply Forall_forall. intros n Hn. apply Hall.
    by apply (nodes_trans (mkXGBTree cs s dt info ax gain) c).
  - apply ltb_asym. by apply Forall_inv in Hall.
Qed.

(** C8.  With a threshold strictly below the cached gain of every node,
    [Prune] detaches nothing and returns the tree as it was; with a
    threshold strictly above the cached gain of every node, the root is
    left with no children. *)
Theorem Prune_extremes threshold (t : XGBTree) :
  (Forall (λ n, (threshold <? nodeGain n)%float = true) (nodes t) →
     (Prune threshold t).1 = t) ∧
  (Forall (λ n, (nodeGain n <? threshold)%float = true) (nodes t) →
     children (Prune threshold t).1 = []).
Proof.
  split; intros Hall.
  - by rewrite Prune_below.
  - rewrite Prune_unfold. simpl. apply PruneChildren_drop_all.
    rewrite Forall_forall in Hall. apply Forall_forall. intros c Hc.
    rewrite Prune_flag. by apply Hall, nodes_child.
Qed.

Lemma Predict_no_children point (t : XGBTree) :
  children t = [] → Predict point t = Some (read_prediction (slot t)).
Proof. destruct t; simpl. by intros ->. Qed.

(** C10.  On a node without children [Predict] returns the union slot
    read as a [double], and neither the split descriptor nor the point
    is looked at: a stored prediction [p] comes back as [p].  So for a
    node that [Prune] left without children, [Predict] returns the slot
    of the node before pruning; when that node had committed a split on
    dimension [d], the value [v] returned is the [double] whose eight
    bytes are those of [d]: reading [v] back as a [size_t] gives [d]
    (for every [d] whose bytes are not those of a NaN), and for [d] from
    1 to 2^52 - 1 it is the positive subnormal [d * 2^-1074], below the
    smallest normal [double]. *)
Theorem Predict_childless point threshold (t : XGBTree) :
  (children t = [] →
     Predict point t = Some (read_prediction (slot t)) ∧
     ∀ p, slot t = prediction p → Predict point t = Some p) ∧
  (children (Prune threshold t).1 = [] →
     Predict point (Prune threshold t).1 = Some (read_prediction (slot t)) ∧
     ∀ d, slot t = splitDimension d →
       ∃ v, Predict point (Prune threshold t).1 = Some v ∧
         v = double_of_bits (Z.of_nat d) ∧
         ((Z.of_nat d < 2 ^ 64)%Z →
          ((Z.of_nat d / 2 ^ 52) mod 2 ^ 11 ≠ 2047 ∨
           Z.of_nat d mod 2 ^ 52 = 0)%Z →
          bits_of_double v = Z.of_nat d) ∧
         ((0 < Z.of_nat d < 2 ^ 52)%Z →
            Prim2SF v = S754_finite false (Pos.of_nat d) (-1074) ∧
            (0 <? v)%float = true ∧ (v <? 0x1p-1022)%float = true)).
Proof.
  split.
  { intros Hcs. rewrite (Predict_no_children _ _ Hcs).
    split; [done|]. by intros p ->. }
  intros Hcs.
  assert (Hp : Predict point (Prune threshold t).1 =
               Some (read_prediction (slot t))).
  { rewrite (Predict_no_children _ _ Hcs). by destruct t. }
  split; [done|]. intros d Hd. exists (double_of_bits (Z.of_nat d)).
  split; [by rewrite Hp, Hd|]. split; [done|]. split.
  - intros Hlt Hnan. apply bits_of_double_of_bits; [lia|done].
  - intros Hsub. split; [|by apply double_of_bits_subnormal_range].
    rewrite (Prim2SF_double_of_bits_subnormal _ Hsub). f_equal.
    destruct d as [|d]; [lia|]. simpl. by rewrite Pos.of_nat_succ.
Qed.

End Properties.

(** * The claims about Train *)

Section TrainClaims.
Context `{C : Collaborators}.
Variable datasetInfo : DatasetInfo.
Variable minimumLeafSize : nat.
Variable minimumGainSplit : float.
Variable dimensionSelector : nat.

(** C1.  In the tree a successful [Train] on [b .. b + c - 1] builds,
    for every internal node the ranges its children were trained on are
    laid end to end from the first column of the node's range to its
    last: the column cursor goes from [begin] to [begin + count], every
    column of the node's range lies in the range of some child, and no
    column lies in the ranges of two children. *)
Theorem Train_children_tile maximumDepth this st b c sink g t st' sink' k :
  Train datasetInfo minimumLeafSize minimumGainSplit dimensionSelector
    maximumDepth this st b c sink = Some (g, t, st', sink', k) →
  call_begin k = b ∧ call_count k = c ∧ EveryNode ChildrenTile t k.
Proof.
  intros Hrun. apply Train_good in Hrun as [_ _ Hb Hc _ _ Hnodes _].
  split_and!; [done..|]. eapply EveryNode_impl; [|exact Hnodes].
  intros t0 k0 (_ & _ & Hs) Hne.
  destruct (call_split k0) as [[d gain]|].
  - destruct Hs as (_ & _ & Ht & _). split_and!; [done| |].
    + intros j. by apply Tiles_covers.
    + intros i1 i2 k1 k2 j. by apply (Tiles_disjoint _ _ _ _ _ _ _ _ Ht).
  - by destruct Hs as [Hnil _].
Qed.

(** C2.  A successful [Train] on [b .. b + c - 1] only reorders: the
    (feature column, response) pairs of the range after the call are a
    permutation of those before it, and outside the range no column and
    no response has moved. *)
Theorem Train_reorders_pairs maximumDepth this st b c sink g t st' sink' k :
  Train datasetInfo minimumLeafSize minimumGainSplit dimensionSelector
    maximumDepth this st b c sink = Some (g, t, st', sink', k) →
  zip (slice b c (data st')) (slice b c (responses st')) ≡ₚ
    zip (slice b c (data st)) (slice b c (responses st)) ∧
  ∀ j, ¬ (b ≤ j < b + c) →
    data st' !! j = data st !! j ∧ responses st' !! j = responses st !! j.
Proof.
  intros Hrun. apply Train_good in Hrun as [_ _ _ _ _ Hre _ _].
  split; [by apply Reorders_pairs_slice|].
  intros j Hj. split.
  - by apply (reorders_data_outside _ _ _ _ Hre).
  - by apply (reorders_responses_outside _ _ _ _ Hre).
Qed.

(** C3, as amended.  [Train] returns [-nodeGain]; every internal node
    caches the sum over its children of [childCount / count * (-childGain)],
    where [childCount] is the size of the child's range and [childGain]
    what the child's [Train] returned; and a node that became a leaf
    directly caches the gain [Evaluate] of its own range of responses
    (when the scanned dimensions are dimensions of the descriptor). *)
Theorem Train_nodeGain maximumDepth this st b c sink g t st' sink' k :
  dimensionSelector ≤ Dimensionality datasetInfo →
  Train datasetInfo minimumLeafSize minimumGainSplit dimensionSelector
    maximumDepth this st b c sink = Some (g, t, st', sink', k) →
  g = (- nodeGain t)%float ∧
  (children t = [] →
     nodeGain t = Evaluate (slice b c (responses st)) (weights st)) ∧
  EveryNode GainCached t k.
Proof.
  intros Hdims Hrun.
  pose proof (Train_good _ _ _ _ _ _ _ _ _ _ _ _ _ _ _ Hrun)
    as [_ _ _ _ Hg _ Hnodes _].
  assert (Hcached : EveryNode GainCached t k).
  { eapply EveryNode_impl; [|exact Hnodes].
    intros t0 k0 (_ & Hr & Hs). split; [done|]. intros Hne.
    destruct (call_split k0) as [[d gain]|]; [by destruct Hs as (_ & _ & _ & ?)|].
    by destruct Hs as [Hnil _]. }
  split_and!; [|clear Hcached|done].
  { inversion Hcached as [t0 k0 [Hr _] _]. congruence. }
  intros Hleaf. unfold Train in Hrun.
  destruct (TrainLevels_body datasetInfo minimumLeafSize minimumGainSplit
    dimensionSelector (Z.to_nat (pred_size_t maximumDepth)) maximumDepth)
    as (tc & Htc & _ & Heq).
  rewrite Heq in Hrun.
  apply TrainBody_split in Hrun as (d & gain & info & ax & Hbest & Hcase);
    [|done].
  destruct (decide (d ≠ Dimensionality datasetInfo)) as [|Hd].
  { by destruct Hcase as [_ ?]. }
  destruct Hcase as (_ & _ & -> & _). unfold BestSplit in Hbest.
  destruct (cols (responses st) b c) as [resp|] eqn:Hresp; [|done].
  apply cols_Some in Hresp as (_ & _ & ->). simpl in Hbest.
  destruct (decide (maximumDepth ≠ 1%Z)); [|congruence].
  apply ScanDimensions_result in Hbest as [[_ ->]|Hin]; [done|].
  apply elem_of_seq in Hin. lia.
Qed.

(** C4, as amended.  The partition sorts the range by child index
    without keeping the order inside a child: after a successful [Train]
    that split, the ranges of the children lie end to end in increasing
    child index, the range of child [i] holds only columns that the node
    routes to child [i], and the (feature column, response) pairs of the
    whole range are a permutation of those before the call. *)
Theorem Train_groups_by_child maximumDepth this st b c sink g t st' sink' k :
  Train datasetInfo minimumLeafSize minimumGainSplit dimensionSelector
    maximumDepth this st b c sink = Some (g, t, st', sink', k) →
  (children t ≠ [] → Tiles b (call_children k) (b + c)) ∧
  (∀ i kc, call_children k !! i = Some kc →
     Forall (λ col, CalculateDirection t col = Some i)
       (slice (call_begin kc) (call_count kc) (data st'))) ∧
  zip (slice b c (data st')) (slice b c (responses st')) ≡ₚ
    zip (slice b c (data st)) (slice b c (responses st)).
Proof.
  intros Hrun. apply Train_good in Hrun as [_ _ Hb Hc _ Hre Hnodes Hgr].
  split_and!; [|done|by apply Reorders_pairs_slice].
  intros Hne. inversion Hnodes as [t0 k0 (_ & _ & Hs) _].
  destruct (call_split k) as [[d gain]|].
  - destruct Hs as (_ & _ & Ht & _). by rewrite Hb, Hc in Ht.
  - by destruct Hs as [Hnil _].
Qed.

(** C5, as amended.  [Train] never touches the weight vector: after a
    successful call it is what it was before, whatever was swapped in
    the feature matrix and the responses. *)
Theorem Train_keeps_weights maximumDepth this st b c sink g t st' sink' k :
  Train datasetInfo minimumLeafSize minimumGainSplit dimensionSelector
    maximumDepth this st b c sink = Some (g, t, st', sink', k) →
  weights st' = weights st.
Proof.
  intros Hrun. apply Train_good in Hrun as [_ _ _ _ _ Hre _ _].
  by apply (reorders_weights _ _ _ _ Hre).
Qed.

(** C6.  With [maximumDepth == 1], [Train] on a non-empty range inside
    the responses returns a single leaf: no children, the prediction
    [OutputLeafValue] of the whole range, and the data left as it was,
    whatever the data, the descriptor and the other hyperparameters. *)
Theorem Train_depth_one_leaf this st b c sink :
  0 < c → b + c ≤ length (responses st) →
  Train datasetInfo minimumLeafSize minimumGainSplit dimensionSelector
    1 this st b c sink =
    Some ((- Evaluate (slice b c (responses st)) (weights st))%float,
          mkXGBTree []
            (prediction
               (OutputLeafValue (slice b c (responses st)) (weights st)))
            (dimensionType this) (splitInfo this) (aux this)
            (Evaluate (slice b c (responses st)) (weights st)),
          st, sink,
          mkCall b c None []
            (- Evaluate (slice b c (responses st)) (weights st))%float).
Proof.
  intros Hc Hrange. unfold Train. rewrite TrainLevels_unfold.
  rewrite TrainBody_depth_one.
  assert (Hcols : cols (responses st) b c = Some (slice b c (responses st)))
    by by apply cols_Some.
  by rewrite Hcols.
Qed.

(** C9.  The sink is called exactly at committed splits.  A run with any
    sink is the run with the null sink (same return value, tree, data
    and invocations) with the sink extended by the calls of the run; the
    calls are, for every invocation that committed a split and for no
    other, one [increaseFeatureFrequency bestDim 1] followed by one
    [increaseFeatureCover bestDim bestGain] for the winner of
    [BestSplit]; and the invocations that committed a split are those
    that built the internal nodes. *)
Theorem Train_sink maximumDepth this st b c sink :
  Train datasetInfo minimumLeafSize minimumGainSplit dimensionSelector
    maximumDepth this st b c sink =
    with_sink sink <$>
      Train datasetInfo minimumLeafSize minimumGainSplit dimensionSelector
        maximumDepth this st b c None ∧
  ∀ g t st' sink' k,
    Train datasetInfo minimumLeafSize minimumGainSplit dimensionSelector
      maximumDepth this st b c sink = Some (g, t, st', sink', k) →
    sink' = notify sink (notifications k) ∧
    EveryNode Committed t k ∧
    ∃ bestDim bestGain info ax,
      BestSplit datasetInfo minimumLeafSize minimumGainSplit
        dimensionSelector maximumDepth this st b c =
        Some (bestDim, bestGain, info, ax) ∧
      call_split k =
        if decide (bestDim ≠ Dimensionality datasetInfo)
        then Some (bestDim, bestGain) else None.
Proof.
  assert (Hsink :
    Train datasetInfo minimumLeafSize minimumGainSplit dimensionSelector
      maximumDepth this st b c sink =
    with_sink sink <$>
      Train datasetInfo minimumLeafSize minimumGainSplit dimensionSelector
        maximumDepth this st b c None)
    by apply TrainLevels_sink.
  split; [done|]. intros g t st' sink' k Hrun. split_and!.
  - rewrite Hrun in Hsink.
    destruct (Train _ _ _ _ maximumDepth this st b c None)
      as [[[[[g0 t0] st0] sink0] k0]|]; [|done].
    simpl in Hsink. congruence.
  - pose proof (Train_good _ _ _ _ _ _ _ _ _ _ _ _ _ _ _ Hrun)
      as [_ _ _ _ _ _ Hnodes _].
    eapply EveryNode_impl; [|exact Hnodes].
    intros t0 k0 (_ & _ & Hs). unfold Committed.
    destruct (call_split k0) as [[d gain]|]; [|tauto].
    by destruct Hs as (? & ? & _).
  - unfold Train in Hrun.
    destruct (TrainLevels_body datasetInfo minimumLeafSize minimumGainSplit
      dimensionSelector (Z.to_nat (pred_size_t maximumDepth)) maximumDepth)
      as (tc & Htc & _ & Heq).
    rewrite Heq in Hrun.
    apply TrainBody_split in Hrun as (d & gain & info & ax & Hbest & Hcase);
      [|done].
    exists d, gain, info, ax. split; [done|].
    destruct (decide (d ≠ Dimensionality datasetInfo)); by destruct Hcase.
Qed.

End TrainClaims.

(** * Further properties of the code

    What follows goes beyond the claims of the specification: properties
    of [Prune], of the parts of [Train], of [Predict] on trained and on
    pruned trees, and of the constructor, each read off the source. *)

(** ** Comparison of doubles, continued *)

Lemma SFcompare_Lt_trans (a b c : spec_float) :
  SFcompare a b = Some Lt →
  (SFcompare b c = Some Lt ∨ SFcompare b c = Some Eq) →
  SFcompare a c = Some Lt.
Proof.
  destruct a as [[]|[]| |[] ma ea], b as [[]|[]| |[] mb eb],
    c as [[]|[]| |[] mc ec]; simpl; intros H1 [H2|H2];
    try discriminate; try reflexivity.
  all: revert H1 H2; change (Pos.compare_cont Eq) with Pos.compare.
  all: destruct (Z.compare_spec ea eb), (Z.compare_spec eb ec),
         (Z.compare_spec ea ec); try lia; try discriminate; try reflexivity;
       subst.
  all: destruct (Pos.compare_spec ma mb), (Pos.compare_spec mb mc),
         (Pos.compare_spec ma mc); simpl; try lia; try discriminate;
       try reflexivity.
Qed.

(** [<] followed by [<=] on doubles gives [<] (also with infinities;
    with a NaN neither premise holds). *)
Lemma ltb_leb_trans (x y z : float) :
  (x <? y)%float = true → (y <=? z)%float = true → (x <? z)%float = true.
Proof.
  rewrite !ltb_spec, leb_spec. unfold SFltb, SFleb. intros H1 H2.
  rewrite (SFcompare_Lt_trans (Prim2SF x) (Prim2SF y) (Prim2SF z)); [done| |].
  - by destruct (SFcompare (Prim2SF x) (Prim2SF y)) as [[]|].
  - destruct (SFcompare (Prim2SF y) (Prim2SF z)) as [[]|]; auto; discriminate.
Qed.

(** ** Prune *)

Section PruneMore.
Context `{C : Collaborators}.

(** The loop of [Prune] in closed form: the children whose gain is not
    below the threshold, in their order, each pruned. *)
Lemma PruneChildren_filter threshold (cs : list XGBTree) :
  PruneChildren (Prune threshold) cs =
  (λ c, (Prune threshold c).1) <$>
    filter (λ c, (nodeGain c <? threshold)%float = false) cs.
Proof.
  induction cs as [|c cs IH]; [done|]. simpl.
  pose proof (Prune_flag threshold c) as Hflag.
  destruct (Prune threshold c) as [c' store] eqn:Hp. simpl in Hflag.
  subst store. destruct (nodeGain c <? threshold)%float eqn:Hg.
  - rewrite filter_cons_False by (rewrite Hg; done). done.
  - rewrite filter_cons_True by done. simpl. by rewrite Hp, IH.
Qed.

Lemma Prune_nodeGain threshold (t : XGBTree) :
  nodeGain (Prune threshold t).1 = nodeGain t.
Proof. by destruct t. Qed.

Lemma CalculateDirection_Prune threshold (t : XGBTree) point :
  CalculateDirection (Prune threshold t).1 point = CalculateDirection t point.
Proof. by destruct t. Qed.

Lemma elem_of_flat_map_nodes (n : XGBTree) (cs : list XGBTree) :
  n ∈ flat_map nodes cs ↔ ∃ c, c ∈ cs ∧ n ∈ nodes c.
Proof.
  rewrite list_elem_of_In, in_flat_map. split.
  - intros (c & Hc & Hn). exists c. by rewrite !list_elem_of_In.
  - intros (c & Hc & Hn). exists c. by rewrite <- !list_elem_of_In.
Qed.

(** X1.  After [Prune], no node below the root has a gain below the
    threshold: what [Prune] keeps of the subtrees, it keeps because
    [nodeGain < threshold] was false there. *)
Theorem Prune_survivors threshold (t : XGBTree) (n : XGBTree) :
  n ∈ flat_map nodes (children (Prune threshold t).1) →
  (nodeGain n <? threshold)%float = false.
Proof.
  revert n. induction t as [cs s dt info ax gain IH] using XGBTree_ind'.
  intros n. simpl. rewrite PruneChildren_filter.
  intros (c' & Hc' & Hn)%elem_of_flat_map_nodes.
  apply list_elem_of_fmap in Hc' as (c & -> & Hc).
  apply list_elem_of_filter in Hc as [Hkeep Hc].
  rewrite Forall_forall in IH. specialize (IH c Hc).
  rewrite nodes_unfold in Hn. apply elem_of_cons in Hn as [->|Hn].
  - by rewrite Prune_nodeGain.
  - by apply IH.
Qed.

(** X2.  [Prune] only removes: every node of the pruned tree is a node of the
    tree, pruned; so the pruned tree has no more nodes than the tree. *)
Theorem Prune_only_removes threshold (t : XGBTree) :
  (∀ n', n' ∈ nodes (Prune threshold t).1 →
     ∃ n, n ∈ nodes t ∧ n' = (Prune threshold n).1) ∧
  length (nodes (Prune threshold t).1) ≤ length (nodes t).
Proof.
  induction t as [cs s dt info ax gain IH] using XGBTree_ind'.
  rewrite Forall_forall in IH. split.
  - intros n'. rewrite nodes_unfold.
    intros [->|Hn]%elem_of_cons.
    { eexists. split; [|done]. rewrite nodes_unfold. left. }
    simpl in Hn. rewrite PruneChildren_filter in Hn.
    apply elem_of_flat_map_nodes in Hn as (c' & Hc' & Hn).
    apply list_elem_of_fmap in Hc' as (c & -> & Hc).
    apply list_elem_of_filter in Hc as [_ Hc].
    destruct (IH c Hc) as [IHc _]. destruct (IHc n' Hn) as (n & Hin & ->).
    exists n. split; [|done].
    by apply (nodes_trans (mkXGBTree cs s dt info ax gain) c).
  - rewrite (nodes_unfold (mkXGBTree cs s dt info ax gain)).
    rewrite nodes_unfold. simpl. apply le_n_S.
    induction cs as [|c cs IHcs]; [done|]. simpl.
    assert (Hc : length (nodes (Prune threshold c).1) ≤ length (nodes c)).
    { apply IH. left. }
    assert (Hcs : length (flat_map nodes
        (PruneChildren (Prune threshold) cs)) ≤ length (flat_map nodes cs)).
    { apply IHcs. intros x Hx. apply IH. by right. }
    destruct (Prune threshold c) as [c' store]. simpl in Hc.
    rewrite length_app. destruct store; simpl; rewrite ?length_app; lia.
Qed.

(** X3.  Pruning with a threshold and then with a larger one is pruning
    with the larger one: the same tree and the same flag. *)
Theorem Prune_Prune_le threshold1 threshold2 (t : XGBTree) :
  (threshold1 <=? threshold2)%float = true →
  Prune threshold2 (Prune threshold1 t).1 = Prune threshold2 t.
Proof.
  intros Hle. induction t as [cs s dt info ax gain IH] using XGBTree_ind'.
  simpl. f_equal. f_equal.
  induction IH as [|c cs Hc _ IHcs]; [done|]. simpl.
  pose proof (Prune_flag threshold1 c) as Hf1.
  pose proof (Prune_flag threshold2 c) as Hf2.
  destruct (Prune threshold1 c) as [c1 s1] eqn:Hp1. simpl in Hf1, Hc.
  destruct (Prune threshold2 c) as [c2 s2] eqn:Hp2. simpl in Hf2.
  destruct s1.
  - rewrite IHcs. symmetry in Hf1.
    rewrite (ltb_leb_trans _ _ _ Hf1 Hle) in Hf2. by subst s2.
  - simpl. rewrite Hc, IHcs. done.
Qed.

End PruneMore.

(** ** Trees and the invocations that built them *)

Section Structure.
Context `{C : Collaborators}.

(** Induction over a tree and the invocations that built it. *)
Lemma EveryNode_ind' (P R : XGBTree → Call → Prop) :
  (∀ t k, P t k → Forall2 (EveryNode P) (children t) (call_children k) →
          Forall2 R (children t) (call_children k) → R t k) →
  ∀ t k, EveryNode P t k → R t k.
Proof.
  intros step. fix IH 3. intros t k [t' k' HP Hcs].
  apply step; [done..|]. induction Hcs; constructor; auto.
Qed.

Lemma EveryNode_and (P Q : XGBTree → Call → Prop) :
  ∀ t k, EveryNode P t k → EveryNode Q t k →
  EveryNode (λ t k, P t k ∧ Q t k) t k.
Proof.
  apply (EveryNode_ind' P (λ t k, EveryNode Q t k → EveryNode _ t k)).
  intros t k HP _ IH HQ. inversion HQ as [t' k' HQt HQcs]. subst.
  constructor; [done|].
  apply Forall2_same_length_lookup. split; [by eapply Forall2_length|].
  intros i c kc Hc Hkc.
  apply (Forall2_lookup_lr _ _ _ _ _ _ IH Hc Hkc).
  apply (Forall2_lookup_lr _ _ _ _ _ _ HQcs Hc Hkc).
Qed.

Lemma Tiles_app b ks1 m ks2 e :
  Tiles b ks1 m → Tiles m ks2 e → Tiles b (ks1 ++ ks2) e.
Proof.
  revert b. induction ks1 as [|k ks1 IH]; intros b; simpl.
  - by intros ->.
  - intros [-> H1] H2. split; [done|]. by apply IH.
Qed.

Lemma Tiles_flat_map (L : Call → list Call) (cs : list XGBTree) ks :
  ∀ b e,
  Forall2 (λ (_ : XGBTree) kc,
    Tiles (call_begin kc) (L kc) (call_begin kc + call_count kc)) cs ks →
  Tiles b ks e → Tiles b (flat_map L ks) e.
Proof.
  intros b e H. revert b. induction H as [|c kc cs ks Hk _ IH]; intros b.
  - done.
  - simpl. intros [<- Ht]. eapply Tiles_app; [exact Hk|]. by apply IH.
Qed.

Lemma Tiles_length b ks e :
  Tiles b ks e → Forall (λ k, 0 < call_count k) ks → length ks ≤ e - b.
Proof.
  revert b. induction ks as [|k ks IH]; intros b; simpl; [lia|].
  intros [_ Ht] [Hk Hks]%Forall_cons. specialize (IH _ Ht Hks).
  apply Tiles_le in Ht. lia.
Qed.

Lemma Tiles_Forall b ks e :
  Tiles b ks e →
  Forall (λ k, b ≤ call_begin k ∧ call_begin k + call_count k ≤ e) ks.
Proof.
  intros Ht. apply Forall_lookup. intros i k Hk.
  by apply (Tiles_inside _ _ _ _ _ Ht Hk).
Qed.

Lemma leaves_unfold (t : XGBTree) :
  leaves t = if decide (children t = []) then [t]
             else flat_map leaves (children t).
Proof. destruct t as [[|c cs] s dt info ax gain]; done. Qed.

Lemma leaf_calls_unfold (k : Call) :
  leaf_calls k = match call_split k with
                 | None => [k]
                 | Some _ => flat_map leaf_calls (call_children k)
                 end.
Proof. by destruct k. Qed.

Lemma Forall2_flat_map {A B A' B'} (R : A' → B' → Prop)
    (f : A → list A') (g : B → list B') l k :
  Forall2 (λ x y, Forall2 R (f x) (g y)) l k →
  Forall2 R (flat_map f l) (flat_map g k).
Proof. induction 1; simpl; [constructor|by apply Forall2_app]. Qed.

(** What holds between the leaves of a sound tree and the invocations
    that built them. *)
Lemma Sound_leaves (t : XGBTree) (k : Call) :
  EveryNode Sound t k →
  Tiles (call_begin k) (leaf_calls k) (call_begin k + call_count k) ∧
  Forall2 (λ l kl, children l = [] ∧ call_split kl = None ∧
                   0 < call_count kl ∧
                   call_result kl = (- nodeGain l)%float)
    (leaves t) (leaf_calls k).
Proof.
  revert t k. apply EveryNode_ind'. intros t k (Hc & Hr & Hs) _ IH.
  rewrite leaves_unfold, leaf_calls_unfold.
  destruct (call_split k) as [[d gain]|] eqn:Hsplit.
  - destruct Hs as (Hne & _ & Ht & _). rewrite decide_False by done. split.
    + eapply Tiles_flat_map; [|exact Ht].
      eapply Forall2_impl; [exact IH|]. by intros c kc [? _].
    + apply Forall2_flat_map. eapply Forall2_impl; [exact IH|].
      by intros c kc [_ ?].
  - destruct Hs as (Hnil & _ & _). rewrite decide_True by done. split.
    + simpl. by split.
    + by repeat constructor.
Qed.

Lemma frequencies_app (l1 l2 : list Notification) :
  frequencies (l1 ++ l2) = frequencies l1 ++ frequencies l2.
Proof. apply omap_app. Qed.

Lemma internal_nodes_unfold (t : XGBTree) :
  internal_nodes t =
  (if decide (children t = []) then [] else [t]) ++
  flat_map internal_nodes (children t).
Proof.
  unfold internal_nodes. rewrite nodes_unfold, filter_cons.
  assert (Hflat : ∀ cs : list XGBTree,
    filter (λ n, children n ≠ []) (flat_map nodes cs) =
    flat_map (λ c, filter (λ n, children n ≠ []) (nodes c)) cs).
  { induction cs as [|c cs IH]; simpl; [done|].
    by rewrite filter_app, IH. }
  rewrite Hflat. destruct (decide (children t = [])) as [Hnil|Hne].
  - by rewrite decide_False by (by intros Hn).
  - by rewrite decide_True by done.
Qed.

Lemma notifications_unfold (k : Call) :
  notifications k =
  match call_split k with
  | Some (d, gain) =>
      [increaseFeatureFrequency d 1; increaseFeatureCover d gain]
  | None => []
  end ++ flat_map notifications (call_children k).
Proof. by destruct k. Qed.

(** The frequency calls of a sound invocation name the split dimensions
    of the internal nodes, the root first. *)
Lemma Sound_frequencies (t : XGBTree) (k : Call) :
  EveryNode Sound t k →
  frequencies (notifications k) =
  (λ n, (read_splitDimension (slot n), 1)) <$> internal_nodes t.
Proof.
  revert t k. apply EveryNode_ind'. intros t k (_ & _ & Hs) _ IH.
  rewrite notifications_unfold, internal_nodes_unfold, frequencies_app,
    fmap_app.
  assert (Hcs : frequencies (flat_map notifications (call_children k)) =
    (λ n, (read_splitDimension (slot n), 1)) <$>
      flat_map internal_nodes (children t)).
  { clear Hs. induction IH as [|c kc cs ks Hc _ IHcs]; simpl; [done|].
    by rewrite frequencies_app, fmap_app, Hc, IHcs. }
  rewrite Hcs. f_equal. destruct (call_split k) as [[d gain]|].
  - destruct Hs as (Hne & Hslot & _). rewrite decide_False by done.
    simpl. by rewrite Hslot.
  - destruct Hs as (Hnil & _). by rewrite decide_True by done.
Qed.

Lemma depth_unfold (t : XGBTree) :
  depth t = S (foldr (λ c, Nat.max (depth c)) 0 (children t)).
Proof. by destruct t. Qed.

Lemma depth_children (cs : list XGBTree) n :
  Forall (λ c, depth c ≤ n) cs → foldr (λ c, Nat.max (depth c)) 0 cs ≤ n.
Proof. induction 1; simpl; lia. Qed.

Lemma PredictChild_lookup predict (cs : list XGBTree) i :
  PredictChild predict cs i = cs !! i ≫= predict.
Proof.
  revert i. induction cs as [|c cs IH]; intros [|i]; simpl; done.
Qed.

(** [Predict] on a node, by the number of its children. *)
Lemma Predict_unfold point (t : XGBTree) :
  Predict point t =
  if decide (children t = []) then Some (read_prediction (slot t))
  else direction ← CalculateDirection t point;
       children t !! direction ≫= Predict point.
Proof.
  destruct t as [[|c cs] s dt info ax gain]; simpl; [done|].
  unfold CalculateDirection. simpl.
  destruct (point !! read_splitDimension s); simpl; [|done].
  match goal with |- context [decide ?P] => destruct (decide P) end;
    apply (PredictChild_lookup _ (c :: cs)).
Qed.

(** [Fits] looks at the state inside the range of the invocation only. *)
Lemma Fits_local b' c' st1 st2 (t : XGBTree) (k : Call) :
  EveryNode Sound t k → Reorders b' c' st1 st2 →
  call_begin k + call_count k ≤ b' →
  EveryNode (Fits st1) t k → EveryNode (Fits st2) t k.
Proof.
  intros Hs Hre Hend Hf. pose proof (EveryNode_and _ _ _ _ Hs Hf) as Hsf.
  clear Hs Hf. revert t k Hsf Hend.
  apply (EveryNode_ind' _
    (λ t k, call_begin k + call_count k ≤ b' → EveryNode (Fits st2) t k)).
  intros t k [(Hc & _ & Hs) Hf] _ IH Hend. unfold Fits in *.
  destruct (call_split k) as [[d gain]|] eqn:Hsplit.
  - destruct Hs as (_ & _ & Ht & _). constructor.
    + rewrite Hsplit. intros i kc Hkc.
      destruct (Tiles_inside _ _ _ _ _ Ht Hkc).
      rewrite (Reorders_slice_inside _ _ _ _ _ _ Hre) by lia.
      by apply Hf.
    + apply Forall2_same_length_lookup. split; [by eapply Forall2_length|].
      intros i c kc Hcl Hkc.
      destruct (Tiles_inside _ _ _ _ _ Ht Hkc).
      apply (Forall2_lookup_lr _ _ _ _ _ _ IH Hcl Hkc). lia.
  - destruct Hs as (Hnil & Hknil & _). constructor.
    + rewrite Hsplit, Hf. do 2 f_equal; [|by destruct Hre].
      apply list_eq. intros i. rewrite !slice_lookup.
      case_decide; [|done]. symmetry.
      apply (reorders_responses_outside _ _ _ _ Hre). lia.
    + rewrite Hnil, Hknil. constructor.
Qed.

(** In a tree that fits the state, a column of the range is routed to
    the leaf whose range holds it. *)
Lemma Fits_Predict st (t : XGBTree) (k : Call) :
  EveryNode (λ t k, Sound t k ∧ Fits st t k) t k →
  ∀ j col, covers k j → data st !! j = Some col →
  ∃ kl, kl ∈ leaf_calls k ∧ covers kl j ∧
    Predict col t =
    Some (OutputLeafValue
            (slice (call_begin kl) (call_count kl) (responses st))
            (weights st)).
Proof.
  revert t k.
  apply (EveryNode_ind' _ (λ t k, ∀ j col, covers k j → _ → ∃ kl, _)).
  intros t k [(Hc & _ & Hs) Hf] _ IH j col Hj Hcol. unfold Fits in Hf.
  rewrite Predict_unfold, leaf_calls_unfold.
  destruct (call_split k) as [[d gain]|] eqn:Hsplit.
  - destruct Hs as (Hne & _ & Ht & _). rewrite decide_False by done.
    destruct (Tiles_covers _ _ _ j Ht) as [Hcov _].
    destruct (Hcov Hj) as (kc & Hkc & Hjc).
    apply list_elem_of_lookup in Hkc as [i Hkc].
    destruct (Forall2_lookup_r _ _ _ _ _ IH Hkc) as (c & Hcl & IHc).
    specialize (Hf i kc Hkc). rewrite Forall_lookup in Hf.
    rewrite (Hf (j - call_begin kc) col).
    + simpl. rewrite Hcl. simpl.
      destruct (IHc j col Hjc Hcol) as (kl & Hkl & Hjl & Hp).
      exists kl. split_and!; [|done..].
      apply list_elem_of_In, in_flat_map. exists kc.
      split; apply list_elem_of_In; [by eapply list_elem_of_lookup_2|done].
    + rewrite slice_lookup. unfold covers in Hjc.
      rewrite decide_True by lia. rewrite <- Hcol. f_equal. lia.
  - destruct Hs as (Hnil & _). rewrite decide_True by done.
    exists k. split_and!; [by left|done|]. by rewrite Hf.
Qed.

End Structure.

(** ** Properties of the children that the loop builds *)

Section LoopLocal.
Context `{C : Collaborators}.
Variable train_child : Trainer.
Hypothesis train_child_good : GoodTrainer train_child.
Variable P : TrainState → XGBTree → Call → Prop.
Hypothesis P_child :
  ∀ this st b c sink g t st' sink' k,
    train_child this st b c sink = Some (g, t, st', sink', k) → P st' t k.
Hypothesis P_local :
  ∀ b' c' st1 st2 t k,
    EveryNode Sound t k → Reorders b' c' st1 st2 →
    call_begin k + call_count k ≤ b' → P st1 t k → P st2 t k.

Section Children.
Variable dir : list float → option nat.
Variables (begin count numChildren : nat) (childCounts ca0 : list nat).
Variable st0 : TrainState.
Hypothesis childCounts_spec :
  ∀ i, i < numChildren →
    childCounts !! i = Some (length (filter (λ a, a = i) ca0)).

(** A property of the children that holds when a child is built, and
    that later reorderings to the right of the child's range keep, holds
    of all children when the loop ends. *)
Lemma SplitIntoChildren_local n :
  ∀ i0 s s',
  SplitIntoChildren train_child begin count childCounts (seq i0 n) s
    = Some s' →
  i0 + n = numChildren →
  LoopInv dir begin count i0 ca0 st0 s →
  Forall2 (P (state s)) (built s) (calls s) →
  Forall2 (P (state s')) (built s') (calls s').
Proof using train_child_good P_child P_local childCounts_spec.
  induction n as [|n IH]; intros i0 s s' Hrun Hn Hinv HP; simpl in Hrun.
  { by injection Hrun as <-. }
  destruct (PartitionPass _ _ _ _ _ _) as [[[ca1 st1] col1]|] eqn:Hpass;
    simpl in Hrun; [|done].
  destruct (train_child _ _ _ _ _) as [[[[[childGain child] st2] sink2] call]|]
    eqn:Htc; simpl in Hrun; [|done].
  destruct (childCounts !! i0) as [n0|] eqn:Hn0; simpl in Hrun; [|done].
  eapply IH; [exact Hrun|lia| |].
  { eapply SplitIntoChildren_step; eauto. lia. }
  simpl. apply Forall2_app; [|constructor; [by eapply P_child|constructor]].
  destruct Hinv as [Hlen Hcol _ _ _ Hlock _ _ Htiles Hbuilt _ _].
  eapply (PartitionPass_spec dir i0 begin (begin + count) (currentCol s))
    in Hpass; [|lia|lia|lia|lia|intros; lia|intros; lia|done].
  destruct Hpass as (_ & _ & _ & Hre1 & _).
  apply train_child_good in Htc as [_ _ _ _ _ Hre2 _ _].
  apply Tiles_Forall in Htiles. rewrite Forall_lookup in Htiles.
  apply Forall2_same_length_lookup. split; [by eapply Forall2_length|].
  intros i t k Ht Hk.
  pose proof (Forall2_lookup_lr _ _ _ _ _ _ HP Ht Hk) as HPt.
  pose proof (Forall2_lookup_lr _ _ _ _ _ _ Hbuilt Ht Hk) as Hsound.
  destruct (Htiles _ _ Hk) as [_ Hend].
  eapply P_local; [done|exact Hre2|done|].
  eapply P_local; [done|exact Hre1|done|done].
Qed.

End Children.

Variable datasetInfo : DatasetInfo.
Variable minimumLeafSize : nat.
Variable minimumGainSplit : float.
Variable dimensionSelector : nat.

(** The same for the children of the node that the body of [Train]
    builds. *)
Lemma TrainBody_children maximumDepth this st b c sink g t st' sink' k :
  TrainBody datasetInfo minimumLeafSize minimumGainSplit dimensionSelector
    train_child maximumDepth this st b c sink = Some (g, t, st', sink', k) →
  Forall2 (P st') (children t) (call_children k).
Proof using train_child_good P_child P_local.
  intros Hrun. unfold TrainBody in Hrun.
  destruct (BestSplit _ _ _ _ _ _ _ _ _) as [[[[bestDim g1] info] ax]|]
    eqn:Hbest; simpl in Hrun; [|done].
  apply BestSplit_range in Hbest as [Hc Hrange].
  destruct (decide (bestDim ≠ Dimensionality datasetInfo)) as [Hsplit|_].
  - destruct (CalculateAssignments _ _ _ _ _ _ _) as [ca0|] eqn:Hca;
      simpl in Hrun; [|done].
    destruct (CountChildren _ _) as [childCounts|] eqn:Hcc;
      simpl in Hrun; [|done].
    destruct (SplitIntoChildren _ _ _ _ _ _) as [s|] eqn:Hloop;
      simpl in Hrun; [|done].
    injection Hrun as <- <- <- <- <-. simpl.
    apply CalculateAssignments_spec in Hca as [Hlen Hlock].
    apply CountChildren_spec in Hcc as (_ & Hlt & Hcounts).
    rewrite length_replicate in Hlt.
    set (numChildren := match Type_ datasetInfo bestDim with
                        | numeric => _ | categorical => _ end) in *.
    eapply (SplitIntoChildren_local
      (direction datasetInfo bestDim info ax) b c numChildren childCounts
      ca0 st) in Hloop; [done| |done| |].
    + intros i Hi. rewrite Hcounts, lookup_replicate_2 by done. done.
    + split; simpl; try done; try lia; try apply Reorders_refl.
    + constructor.
  - destruct (cols (responses st) b c) as [resp|]; simpl in Hrun; [|done].
    injection Hrun as <- <- <- <- <-. constructor.
Qed.

End LoopLocal.

(** ** Train *)

Section TrainMore.
Context `{C : Collaborators}.
Variable datasetInfo : DatasetInfo.
Variable minimumLeafSize : nat.
Variable minimumGainSplit : float.
Variable dimensionSelector : nat.

(** The scan returns what it was given, or a dimension it looked at with
    a gain that is not the "no split" value. *)
Lemma ScanDimensions_winner st b c dims :
  ∀ d0 g0 info0 ax0 d g info ax,
  ScanDimensions datasetInfo minimumLeafSize minimumGainSplit st b c dims
    d0 g0 info0 ax0 = Some (d, g, info, ax) →
  (d = d0 ∧ g = g0) ∨ (d ∈ dims ∧ (g =? DBL_MAX)%float = false).
Proof.
  induction dims as [|i dims IH]; intros d0 g0 info0 ax0 d g info ax Hrun;
    simpl in Hrun.
  { injection Hrun as <- <- <- <-. by left. }
  destruct (cols (data st) b c) as [block|]; simpl in Hrun; [|done].
  destruct (row i block) as [feature|]; simpl in Hrun; [|done].
  destruct (cols (responses st) b c) as [resp|]; simpl in Hrun; [|done].
  assert (∃ r, r = match Type_ datasetInfo i with
    | numeric => NumericSplitIfBetter g0 feature resp (weights st)
        minimumLeafSize minimumGainSplit info0 ax0
    | categorical => CategoricalSplitIfBetter g0 feature
        (NumMappings datasetInfo i) resp (weights st)
        minimumLeafSize minimumGainSplit info0 ax0
    end) as [[[dimGain info1] ax1] Hr] by eauto.
  rewrite <- Hr in Hrun.
  destruct (dimGain =? DBL_MAX)%float eqn:Hmax.
  - apply IH in Hrun as [?|[? ?]]; [by left|right]. split; [by right|done].
  - destruct (0 <=? dimGain)%float.
    + injection Hrun as <- <- <- <-. right. split; [by left|done].
    + apply IH in Hrun as [[-> ->]|[? ?]]; right;
        (split; [by (left + right)|done]).
Qed.

(** The dimension the search ends with is the "no split" mark or one
    that the selector offered. *)
Lemma BestSplit_dimension maximumDepth this st b c d g info ax :
  BestSplit datasetInfo minimumLeafSize minimumGainSplit dimensionSelector
    maximumDepth this st b c = Some (d, g, info, ax) →
  d = Dimensionality datasetInfo ∨ d < dimensionSelector.
Proof.
  unfold BestSplit. intros Hrun.
  destruct (cols (responses st) b c) as [resp|]; simpl in Hrun; [|done].
  destruct (decide (maximumDepth ≠ 1%Z)) as [Hd|_].
  - apply ScanDimensions_result in Hrun as [[-> _]|Hin]; [by left|].
    right. apply elem_of_seq in Hin. lia.
  - injection Hrun as <- _ _ _. by left.
Qed.

Lemma SplitIntoChildren_length train_child b c childCounts todo :
  ∀ s s',
  SplitIntoChildren train_child b c childCounts todo s = Some s' →
  length (built s') = length (built s) + length todo.
Proof.
  induction todo as [|i todo IH]; intros s s' Hrun; simpl in Hrun.
  { injection Hrun as <-. simpl. lia. }
  destruct (PartitionPass _ _ _ _ _ _) as [[[ca1 st1] col1]|];
    simpl in Hrun; [|done].
  destruct (train_child _ _ _ _ _) as [[[[[childGain child] st2] sink2] call]|];
    simpl in Hrun; [|done].
  destruct (childCounts !! i) as [n0|]; simpl in Hrun; [|done].
  apply IH in Hrun. rewrite Hrun. simpl. rewrite length_app. simpl. lia.
Qed.

Lemma TrainBody_wellsplit train_child maximumDepth :
  GoodTrainer train_child →
  WellSplit datasetInfo dimensionSelector train_child →
  WellSplit datasetInfo dimensionSelector
    (TrainBody datasetInfo minimumLeafSize minimumGainSplit
       dimensionSelector train_child maximumDepth).
Proof.
  intros Hgood Hws this st b c sink g t st' sink' k Hrun.
  pose proof (TrainBody_children train_child Hgood
    (λ _ t _, Forall (SplitsOn datasetInfo dimensionSelector)
                (internal_nodes t)) Hws ltac:(done)
    _ _ _ _ _ _ _ _ _ _ _ _ _ _ _ Hrun) as Hcs.
  rewrite internal_nodes_unfold. apply Forall_app. split.
  - unfold TrainBody in Hrun.
    destruct (BestSplit _ _ _ _ _ _ _ _ _) as [[[[bestDim g1] info] ax]|]
      eqn:Hbest; simpl in Hrun; [|done].
    apply BestSplit_dimension in Hbest.
    destruct (decide (bestDim ≠ Dimensionality datasetInfo)) as [Hsplit|_].
    + destruct (CalculateAssignments _ _ _ _ _ _ _) as [ca0|];
        simpl in Hrun; [|done].
      destruct (CountChildren _ _) as [childCounts|];
        simpl in Hrun; [|done].
      destruct (SplitIntoChildren _ _ _ _ _ _) as [s|] eqn:Hloop;
        simpl in Hrun; [|done].
      injection Hrun as <- <- <- <- <-. simpl.
      apply SplitIntoChildren_length in Hloop. simpl in Hloop.
      rewrite length_seq in Hloop.
      case_decide; constructor; [|constructor].
      unfold SplitsOn. simpl.
      destruct Hbest as [?|?]; [done|].
      split_and!; done.
    + destruct (cols (responses st) b c) as [resp|]; simpl in Hrun; [|done].
      injection Hrun as <- <- <- <- <-. simpl. constructor.
  - clear Hrun. induction Hcs as [|c0 k0 cs ks Hc _ IH]; simpl; [done|].
    by apply Forall_app.
Qed.

Lemma TrainBody_fits train_child maximumDepth :
  GoodTrainer train_child → Fitting train_child →
  Fitting
    (TrainBody datasetInfo minimumLeafSize minimumGainSplit
       dimensionSelector train_child maximumDepth).
Proof.
  intros Hgood Hfit this st b c sink g t st' sink' k Hrun.
  constructor.
  - pose proof (TrainBody_good _ _ _ _ _ _ Hgood _ _ _ _ _ _ _ _ _ _ Hrun)
      as [_ _ Hb Hc _ _ Hnodes Hgrouped].
    destruct (TrainBody_split _ _ _ _ _ _ _ _ _ _ _ _ _ _ _ _ Hgood Hrun)
      as (bestDim & g1 & info & ax & _ & Hcase).
    unfold Fits. destruct (decide (bestDim ≠ Dimensionality datasetInfo)).
    + destruct Hcase as [-> _]. done.
    + destruct Hcase as (-> & _ & _ & -> & ->). by rewrite Hb, Hc.
  - eapply (TrainBody_children train_child Hgood
      (λ st t k, EveryNode (Fits st) t k)); [exact Hfit| |exact Hrun].
    intros b' c' st1 st2 t0 k0. apply Fits_local.
Qed.

Lemma TrainLevels_fits levels :
  ∀ maximumDepth,
  Fitting
    (TrainLevels datasetInfo minimumLeafSize minimumGainSplit
       dimensionSelector levels maximumDepth).
Proof.
  induction levels as [|levels IH]; intros maximumDepth; simpl;
    apply TrainBody_fits.
  - by intros ???????????.
  - by intros ???????????.
  - apply TrainLevels_good.
  - apply IH.
Qed.

(** X4.  An empty range, or a range that ends beyond the responses, makes
    [Train] fail (line 133 asks Armadillo for columns that do not
    exist), at the root and in any child: every node of a tree that
    [Train] returns was trained on at least one sample. *)
Theorem Train_rejects_empty_ranges maximumDepth this st b c sink :
  (c = 0 ∨ length (responses st) < b + c →
     Train datasetInfo minimumLeafSize minimumGainSplit dimensionSelector
       maximumDepth this st b c sink = None) ∧
  ∀ g t st' sink' k,
    Train datasetInfo minimumLeafSize minimumGainSplit dimensionSelector
      maximumDepth this st b c sink = Some (g, t, st', sink', k) →
    EveryNode (λ _ kn, 0 < call_count kn) t k.
Proof.
  split.
  - intros Hbad.
    destruct (Train _ _ _ _ maximumDepth this st b c sink)
      as [[[[[g t] st'] sink'] k]|] eqn:Hrun; [|done].
    apply Train_good in Hrun as [Hc Hrange _ _ _ _ _ _]. lia.
  - intros g t st' sink' k Hrun.
    apply Train_good in Hrun as [_ _ _ _ _ _ Hnodes _].
    revert Hnodes. apply EveryNode_impl. by intros t0 k0 [? _].
Qed.

(** X5.  The leaves of the tree partition the trained range: the ranges the
    leaves were trained on, from left to right, lie end to end from
    [b] to [b + c], and none is empty; so a tree trained on [c] samples
    has at least one and at most [c] leaves. *)
Theorem Train_leaves_partition maximumDepth this st b c sink g t st' sink' k :
  Train datasetInfo minimumLeafSize minimumGainSplit dimensionSelector
    maximumDepth this st b c sink = Some (g, t, st', sink', k) →
  Tiles b (leaf_calls k) (b + c) ∧
  Forall2 (λ l kl, children l = [] ∧ 0 < call_count kl) (leaves t)
    (leaf_calls k) ∧
  0 < length (leaves t) ≤ c.
Proof.
  intros Hrun. apply Train_good in Hrun as [Hc _ Hb Hn _ _ Hnodes _].
  apply Sound_leaves in Hnodes as [Ht Hl]. rewrite Hb, Hn in Ht.
  assert (Hlen : length (leaves t) = length (leaf_calls k))
    by by eapply Forall2_length.
  split_and!; [done| | |].
  - eapply Forall2_impl; [exact Hl|]. naive_solver.
  - destruct (leaf_calls k) as [|k0 ks] eqn:Hk; [|rewrite Hlen; simpl; lia].
    simpl in Ht. lia.
  - rewrite Hlen.
    pose proof (Tiles_length _ _ _ Ht) as Hle.
    assert (length (leaf_calls k) ≤ b + c - b); [|lia]. apply Hle.
    clear -Hl. induction Hl as [|l kl ls ks (_ & _ & ? & _) _ IH];
      by constructor.
Qed.

(** X6.  With a sink, [Train] calls [increaseFeatureFrequency] exactly once
    per internal node of the tree it builds, with that node's split
    dimension and the amount 1, the root first; the calls are appended to
    what the sink held. *)
Theorem Train_frequencies maximumDepth this st b c log g t st' sink' k :
  Train datasetInfo minimumLeafSize minimumGainSplit dimensionSelector
    maximumDepth this st b c (Some log) = Some (g, t, st', sink', k) →
  ∃ log', sink' = Some log' ∧
    frequencies log' =
    frequencies log ++
      ((λ n, (read_splitDimension (slot n), 1)) <$> internal_nodes t).
Proof.
  intros Hrun. pose proof (Train_good _ _ _ _ _ _ _ _ _ _ _ _ _ _ _ Hrun)
    as [_ _ _ _ _ _ Hnodes _].
  unfold Train in Hrun. rewrite TrainLevels_sink in Hrun.
  destruct (TrainLevels _ _ _ _ _ _ this st b c None)
    as [[[[[g0 t0] st0] sink0] k0]|]; [|done].
  simpl in Hrun. injection Hrun as -> -> -> <- ->.
  eexists. split; [done|].
  by rewrite frequencies_app, (Sound_frequencies _ _ Hnodes).
Qed.

(** X7.  The tree that [Train] returns predicts, for every column of the
    trained range as the feature matrix holds it after the call, the leaf
    value of the leaf in whose range the column lies: [Predict] follows
    the splits to a leaf, the ranges of the leaves partition the trained
    range, and the value is [OutputLeafValue] of the responses of that
    leaf's range. *)
Theorem Train_Predict maximumDepth this st b c sink g t st' sink' k j col :
  Train datasetInfo minimumLeafSize minimumGainSplit dimensionSelector
    maximumDepth this st b c sink = Some (g, t, st', sink', k) →
  b ≤ j < b + c → data st' !! j = Some col →
  ∃ kl, kl ∈ leaf_calls k ∧ covers kl j ∧
    b ≤ call_begin kl ∧ call_begin kl + call_count kl ≤ b + c ∧
    Predict col t =
    Some (OutputLeafValue
            (slice (call_begin kl) (call_count kl) (responses st'))
            (weights st')).
Proof.
  intros Hrun Hj Hcol.
  pose proof (Train_good _ _ _ _ _ _ _ _ _ _ _ _ _ _ _ Hrun)
    as [_ _ Hb Hc _ _ Hnodes _].
  pose proof (TrainLevels_fits _ _ _ _ _ _ _ _ _ _ _ _ Hrun) as Hfits.
  destruct (Fits_Predict st' t k (EveryNode_and _ _ _ _ Hnodes Hfits) j col)
    as (kl & Hkl & Hjl & Hp); [unfold covers; lia|done|].
  exists kl. split_and!; [done..| | |done].
  - apply Sound_leaves in Hnodes as [Ht _].
    apply list_elem_of_lookup in Hkl as [i Hkl].
    destruct (Tiles_inside _ _ _ _ _ Ht Hkl). lia.
  - apply Sound_leaves in Hnodes as [Ht _].
    apply list_elem_of_lookup in Hkl as [i Hkl].
    destruct (Tiles_inside _ _ _ _ _ Ht Hkl). lia.
Qed.

(** X8.  [maximumDepth] bounds the depth of the tree: a tree that [Train]
    returns for [maximumDepth] from 1 to [SIZE_MAX] has at most
    [maximumDepth] nodes on any path from the root to a leaf, since the
    children are trained with [maximumDepth - 1] and no dimension is
    scanned at [maximumDepth == 1]. *)
Theorem Train_depth maximumDepth this st b c sink g t st' sink' k :
  (1 ≤ maximumDepth < 2 ^ 64)%Z →
  Train datasetInfo minimumLeafSize minimumGainSplit dimensionSelector
    maximumDepth this st b c sink = Some (g, t, st', sink', k) →
  (Z.of_nat (depth t) ≤ maximumDepth)%Z.
Proof.
  intros Hd. assert (Hn : ∃ n, maximumDepth = Z.of_nat (S n))
    by (exists (Z.to_nat (maximumDepth - 1)); lia).
  destruct Hn as [n ->]. revert this st b c sink g t st' sink' k.
  induction n as [|n IH]; intros this st b c sink g t st' sink' k Hrun.
  - rewrite Train_unfold in Hrun by lia.
    change (Z.of_nat 1) with 1%Z in Hrun.
    rewrite TrainBody_depth_one in Hrun.
    destruct (cols (responses st) b c); simpl in Hrun; [|done].
    by injection Hrun as _ <- _ _ _.
  - rewrite Train_unfold in Hrun by lia.
    assert (Hpred : pred_size_t (Z.of_nat (S (S n))) = Z.of_nat (S n)).
    { unfold pred_size_t. rewrite Z.mod_small; lia. }
    rewrite Hpred in Hrun.
    eapply (TrainBody_children _ (Train_good _ _ _ _ _)
      (λ _ t _, depth t ≤ S n)) in Hrun.
    + rewrite depth_unfold.
      apply Forall2_Forall_l with (Q := λ c, depth c ≤ S n) in Hrun.
      * apply depth_children in Hrun. lia.
      * apply Forall_true. tauto.
    + intros ?????????? Hchild. apply IH in Hchild; lia.
    + done.
Qed.

(** X9.  The search for the best split (lines 132-183) ends in one of two
    ways: with the "no split" mark and the gain of the undivided range,
    or, unless [maximumDepth] is 1, with a dimension that the selector
    offered and a gain other than [DBL_MAX]. *)
Theorem BestSplit_cases maximumDepth this st b c d g info ax :
  BestSplit datasetInfo minimumLeafSize minimumGainSplit dimensionSelector
    maximumDepth this st b c = Some (d, g, info, ax) →
  (d = Dimensionality datasetInfo ∧
   g = Evaluate (slice b c (responses st)) (weights st)) ∨
  (d < dimensionSelector ∧ maximumDepth ≠ 1%Z ∧
   (g =? DBL_MAX)%float = false).
Proof.
  unfold BestSplit. intros Hrun.
  destruct (cols (responses st) b c) as [resp|] eqn:Hresp;
    simpl in Hrun; [|done].
  apply cols_Some in Hresp as (_ & _ & ->).
  destruct (decide (maximumDepth ≠ 1%Z)) as [Hd|_].
  - apply ScanDimensions_winner in Hrun as [[-> ->]|[Hin Hg]]; [by left|].
    right. apply elem_of_seq in Hin. split_and!; [lia|done..].
  - injection Hrun as <- <- _ _. by left.
Qed.

(** X10.  Every internal node of a tree that [Train] returns splits on a
    dimension that the selector offered and that is not the "no split"
    mark, records the type of that dimension, and has exactly the number
    of children that the splitter of that type asks for. *)
Theorem Train_internal_nodes maximumDepth this st b c sink g t st' sink' k :
  Train datasetInfo minimumLeafSize minimumGainSplit dimensionSelector
    maximumDepth this st b c sink = Some (g, t, st', sink', k) →
  Forall (SplitsOn datasetInfo dimensionSelector) (internal_nodes t).
Proof.
  unfold Train. generalize (Z.to_nat (pred_size_t maximumDepth)).
  intros levels. revert maximumDepth this st b c sink g t st' sink' k.
  induction levels as [|levels IH]; intros maximumDepth;
    rewrite TrainLevels_unfold; apply TrainBody_wellsplit.
  - by intros ???????????.
  - by intros ???????????.
  - apply TrainLevels_good.
  - intros ?????????? Hchild. exact (IH _ _ _ _ _ _ _ _ _ _ _ Hchild).
Qed.

(** X17.  When [Train] returns a node without children, it took the
    leaf branch (lines 256-262): it moved no column and no response,
    made no call on the sink, started no other invocation, and stored
    [OutputLeafValue] of the responses of its range as the prediction. *)
Theorem Train_leaf maximumDepth this st b c sink g t st' sink' k :
  Train datasetInfo minimumLeafSize minimumGainSplit dimensionSelector
    maximumDepth this st b c sink = Some (g, t, st', sink', k) →
  children t = [] →
  st' = st ∧ sink' = sink ∧ call_children k = [] ∧
  slot t =
    prediction (OutputLeafValue (slice b c (responses st)) (weights st)).
Proof.
  intros Hrun Hnil.
  pose proof (Train_good _ _ _ _ _ _ _ _ _ _ _ _ _ _ _ Hrun)
    as [_ _ _ _ _ _ Hnodes _].
  inversion Hnodes as [t0 k0 (_ & _ & Hs) _]. subst t0 k0.
  assert (Hsink : sink' = notify sink (notifications k)).
  { unfold Train in Hrun. rewrite TrainLevels_sink in Hrun.
    destruct (TrainLevels _ _ _ _ _ _ this st b c None)
      as [[[[[g0 t0] st0] sink0] k0]|]; [|done].
    simpl in Hrun. by injection Hrun as _ _ _ <- <-. }
  unfold Train in Hrun.
  destruct (TrainLevels_body datasetInfo minimumLeafSize minimumGainSplit
    dimensionSelector (Z.to_nat (pred_size_t maximumDepth)) maximumDepth)
    as (tc & Htc & _ & Heq).
  rewrite Heq in Hrun.
  apply TrainBody_split in Hrun as (d & gain & info & ax & _ & Hcase);
    [|done].
  destruct (decide (d ≠ Dimensionality datasetInfo)).
  { by destruct Hcase as [_ ?]. }
  destruct Hcase as (Hsplit & _ & _ & -> & Hslot).
  rewrite Hsplit in Hs. destruct Hs as (_ & Hks & _).
  split_and!; [done| |done..].
  rewrite Hsink, notifications_unfold, Hsplit, Hks. simpl. apply notify_nil.
Qed.

End TrainMore.

(** ** The counting loop and one pass of the partition *)

Section Counts.

Lemma sum_list_insert (cc : list nat) a n :
  cc !! a = Some n → sum_list (<[a := S n]> cc) = S (sum_list cc).
Proof.
  revert a. induction cc as [|x cc IH]; intros [|a]; simpl; try done.
  - by intros [= ->].
  - intros Ha. rewrite (IH _ Ha). lia.
Qed.

Lemma CountChildren_sum (l : list nat) :
  ∀ cc cc', CountChildren cc l = Some cc' →
  sum_list cc' = sum_list cc + length l.
Proof.
  induction l as [|a l IH]; intros cc cc' Hrun; simpl in Hrun.
  { injection Hrun as <-. simpl. lia. }
  destruct (cc !! a) as [n|] eqn:Ha; simpl in Hrun; [|done].
  apply IH in Hrun. rewrite Hrun, (sum_list_insert _ _ _ Ha). simpl. lia.
Qed.

Lemma CountChildren_is_Some (l : list nat) :
  ∀ cc, Forall (λ a, a < length cc) l → is_Some (CountChildren cc l).
Proof.
  induction l as [|a l IH]; intros cc Hl; simpl; [by eexists|].
  apply Forall_cons in Hl as [Ha Hl].
  destruct (lookup_lt_is_Some_2 cc a Ha) as [n Hn]. rewrite Hn. simpl.
  apply IH. by rewrite length_insert.
Qed.

(** X11.  The counting loop (lines 221-223) on [numChildren] zeroed counters
    goes through exactly when every assignment is below [numChildren]
    (otherwise it writes behind the counters); then there are still
    [numChildren] counters, counter [i] holds the number of assignments
    equal to [i], and the counters add up to the number of samples. *)
Theorem CountChildren_counts numChildren (assignments : list nat) :
  (is_Some (CountChildren (replicate numChildren 0) assignments) ↔
   Forall (λ a, a < numChildren) assignments) ∧
  ∀ childCounts,
    CountChildren (replicate numChildren 0) assignments = Some childCounts →
    length childCounts = numChildren ∧
    (∀ i, i < numChildren →
       childCounts !! i =
       Some (length (filter (λ a, a = i) assignments))) ∧
    sum_list childCounts = length assignments.
Proof.
  split.
  - split.
    + intros [cc Hcc]. apply CountChildren_spec in Hcc as (_ & Hlt & _).
      by rewrite length_replicate in Hlt.
    + intros Hlt. apply CountChildren_is_Some.
      by rewrite length_replicate.
  - intros cc Hcc. pose proof (CountChildren_sum _ _ _ Hcc) as Hsum.
    apply CountChildren_spec in Hcc as (Hlen & _ & Hcount).
    rewrite length_replicate in Hlen. split_and!; [done| |].
    + intros i Hi. by rewrite Hcount, lookup_replicate_2.
    + rewrite Hsum. assert (sum_list (replicate numChildren 0) = 0); [|lia].
      clear. induction numChildren; simpl; lia.
Qed.

End Counts.

Section PassOrder.

Lemma slice_cons {A} b c (l : list A) x :
  l !! b = Some x → slice b (S c) l = x :: slice (S b) c l.
Proof. intros Hx. unfold slice. by rewrite (drop_S l x b Hx). Qed.

Lemma slice_swap_after {A} (l : list A) cur j n :
  cur ≤ j → slice (S j) n (swap l cur j) = slice (S j) n l.
Proof.
  intros Hle. apply list_eq. intros k. rewrite !slice_lookup.
  case_decide; [|done]. apply swap_lookup_ne; lia.
Qed.

Lemma pairs_is_Some st j :
  j < length (data st) → j < length (responses st) →
  is_Some (pairs st !! j).
Proof.
  intros Hd Hr. apply lookup_lt_is_Some_2. unfold pairs.
  rewrite length_zip_with. lia.
Qed.

(** The inner loop for child [i], at column [j] with the cursor at [cur]:
    the columns it puts from the cursor on are the columns from [j] on
    that are assigned to [i], in the order in which they stood. *)
Lemma PartitionPass_order i begin n :
  ∀ j ca st cur ca' st' cur',
  PartitionPass i begin (seq j n) ca st cur = Some (ca', st', cur') →
  begin ≤ cur ≤ j →
  j + n ≤ length (data st) → j + n ≤ length (responses st) →
  cur ≤ cur' ∧
  (∀ p, p < cur → pairs st' !! p = pairs st !! p) ∧
  slice cur (cur' - cur) (pairs st') =
    (filter (λ p, p.1 = i)
       (zip (slice (j - begin) n ca) (slice j n (pairs st)))).*2.
Proof.
  induction n as [|n IH]; intros j ca st cur ca' st' cur' Hrun Hcur Hd Hr.
  { simpl in Hrun. injection Hrun as <- <- <-.
    split_and!; [done..|]. by rewrite Nat.sub_diag. }
  simpl in Hrun.
  destruct (ca !! (j - begin)) as [a|] eqn:Ha; simpl in Hrun; [|done].
  destruct (pairs_is_Some st j) as [x Hx]; [lia..|].
  rewrite (slice_cons _ _ ca a Ha), (slice_cons _ _ (pairs st) x Hx).
  assert (Ho : S j - begin = S (j - begin)) by lia.
  change (zip (a :: ?l) (x :: ?k)) with ((a, x) :: zip l k).
  destruct (decide (a = i)) as [->|Hai].
  - destruct (swap_cols ca (cur - begin) (j - begin)) as [ca1|] eqn:Hca1;
      simpl in Hrun; [|done].
    destruct (swap_cols (data st) cur j) as [data1|] eqn:Hd1;
      simpl in Hrun; [|done].
    destruct (swap_cols (responses st) cur j) as [resp1|] eqn:Hr1;
      simpl in Hrun; [|done].
    apply swap_cols_Some in Hca1 as (_ & _ & ->).
    apply swap_cols_Some in Hd1 as (Hd1 & Hd2 & ->).
    apply swap_cols_Some in Hr1 as (Hr1 & Hr2 & ->).
    apply IH in Hrun as (Hle & Hpre & Hblock);
      [|lia|simpl; rewrite swap_length; lia..].
    assert (Hp1 : pairs {| data := swap (data st) cur j;
                           responses := swap (responses st) cur j;
                           weights := weights st |} =
                  swap (pairs st) cur j)
      by (unfold pairs; simpl; apply swap_zip; lia).
    rewrite Hp1 in Hblock. setoid_rewrite Hp1 in Hpre. clear Hp1.
    rewrite slice_swap_after in Hblock by lia.
    rewrite Ho in Hblock.
    rewrite slice_swap_after in Hblock by lia.
    assert (Hlen : cur < length (pairs st) ∧ j < length (pairs st)).
    { unfold pairs. rewrite length_zip_with. lia. }
    split_and!; [lia| |].
    + intros p Hp. rewrite Hpre by lia. apply swap_lookup_ne; lia.
    + rewrite filter_cons_True, fmap_cons by done. rewrite <- Hblock.
      replace (cur' - cur) with (S (cur' - S cur)) by lia.
      apply slice_cons. rewrite Hpre by lia.
      rewrite swap_lookup by lia. by rewrite decide_True.
  - apply IH in Hrun as (Hle & Hpre & Hblock); [|lia..].
    rewrite Ho in Hblock.
    split_and!; [done..|]. by rewrite filter_cons_False.
Qed.

(** X12.  One pass of the partition (lines 231-241) keeps the order of the
    samples it collects: after the pass for child [i] over the columns
    from [col0] on, the block from [col0] to the cursor holds the
    (column, response) pairs which were assigned to [i], in the order in
    which they stood before the pass, and nothing before [col0] has
    moved.  (What the pass leaves behind the cursor for the later
    children is not in the order in which it stood.) *)
Theorem PartitionPass_keeps_order i begin col0 n ca st ca' st' cur' :
  begin ≤ col0 →
  col0 + n ≤ length (data st) → col0 + n ≤ length (responses st) →
  PartitionPass i begin (seq col0 n) ca st col0 = Some (ca', st', cur') →
  col0 ≤ cur' ∧
  (∀ p, p < col0 → pairs st' !! p = pairs st !! p) ∧
  slice col0 (cur' - col0) (pairs st') =
    (filter (λ p, p.1 = i)
       (zip (slice (col0 - begin) n ca) (slice col0 n (pairs st)))).*2.
Proof.
  intros Hb Hd Hr Hrun. eapply PartitionPass_order; [exact Hrun|lia|done..].
Qed.

End PassOrder.

(** ** Predict, on any tree, after Prune and after the constructor *)

Section PredictMore.
Context `{C : Collaborators}.

(** X13.  Whatever the point, what [Predict] returns is the union slot of a
    leaf of the tree, read as a [double]. *)
Theorem Predict_returns_leaf point (t : XGBTree) v :
  Predict point t = Some v →
  ∃ l, l ∈ leaves t ∧ children l = [] ∧ v = read_prediction (slot l).
Proof.
  revert v. induction t as [cs s dt info ax gain IH] using XGBTree_ind'.
  intros v. rewrite Predict_unfold, leaves_unfold. simpl.
  destruct (decide (cs = [])) as [->|Hne].
  - intros [= <-]. eexists. split; [by left|done].
  - intros Hp. apply bind_Some in Hp as (dir & _ & Hp).
    apply bind_Some in Hp as (c & Hc & Hp).
    rewrite Forall_lookup in IH.
    destruct (IH _ _ Hc _ Hp) as (l & Hl & Hleaf).
    exists l. split; [|done].
    apply list_elem_of_In, in_flat_map. exists c.
    split; apply list_elem_of_In; [by eapply list_elem_of_lookup_2|done].
Qed.

(** X14.  [Predict] reads the point only at the split dimensions of internal
    nodes: two points that agree there get the same answer. *)
Theorem Predict_reads_split_dimensions p q (t : XGBTree) :
  Forall (λ n, p !! read_splitDimension (slot n) =
               q !! read_splitDimension (slot n)) (internal_nodes t) →
  Predict p t = Predict q t.
Proof.
  induction t as [cs s dt info ax gain IH] using XGBTree_ind'.
  rewrite internal_nodes_unfold, !Predict_unfold. simpl.
  destruct (decide (cs = [])) as [->|Hne]; [done|].
  intros [Hroot Hcs]%Forall_app. apply Forall_inv in Hroot. simpl in Hroot.
  unfold CalculateDirection. simpl. rewrite Hroot.
  destruct (q !! read_splitDimension s) as [value|]; simpl; [|done].
  match goal with |- ?l !! ?d ≫= _ = _ => destruct (l !! d) as [c|] eqn:Hc end;
    simpl; [|done].
  rewrite Forall_lookup in IH. apply (IH _ _ Hc).
  apply Forall_forall. intros n Hn. rewrite Forall_forall in Hcs.
  apply Hcs. apply list_elem_of_In, in_flat_map. exists c.
  split; apply list_elem_of_In; [by eapply list_elem_of_lookup_2|done].
Qed.

(** X15.  [Prune] leaves the split of a node as it was, so after pruning
    [Predict] uses the direction of the unpruned node as an index into
    the children that were kept: a node that kept no child answers with
    its union slot, and otherwise the direction [dir] selects the
    [dir]-th kept child, which need not be the [dir]-th child of the
    unpruned node, and no child when [dir] is not below the number of
    kept children. *)
Theorem Prune_Predict threshold point (t : XGBTree) :
  Predict point (Prune threshold t).1 =
  let kept :=
    filter (λ c, (nodeGain c <? threshold)%float = false) (children t) in
  if decide (kept = []) then Some (read_prediction (slot t))
  else dir ← CalculateDirection t point;
       c ← kept !! dir; Predict point (Prune threshold c).1.
Proof.
  rewrite Predict_unfold, CalculateDirection_Prune.
  destruct t as [cs s dt info ax gain]. simpl.
  rewrite PruneChildren_filter.
  set (kept := filter _ cs).
  destruct (decide (kept = [])) as [->|Hne].
  - by rewrite decide_True.
  - rewrite decide_False by (by intros ?%fmap_nil_inv).
    destruct (CalculateDirection _ point) as [dir|]; simpl; [|done].
    rewrite list_lookup_fmap. by destruct (kept !! dir).
Qed.

(** X16.  The constructor (lines 86-109) builds a tree only from at least
    one column and at least as many responses as columns; the columns and
    responses it leaves behind are those it was given, reordered, the
    weights stay empty, and for every column it was given the tree
    predicts the leaf value of a block of the reordered responses. *)
Theorem XGBTree_new_trained data0 responses0 datasetInfo minimumLeafSize
    minimumGainSplit maximumDepth sink g t st' sink' k :
  XGBTree_new data0 responses0 datasetInfo minimumLeafSize minimumGainSplit
    maximumDepth sink = Some (g, t, st', sink', k) →
  0 < length data0 ≤ length responses0 ∧
  data st' ≡ₚ data0 ∧ responses st' ≡ₚ responses0 ∧ weights st' = [] ∧
  ∀ col, col ∈ data0 → ∃ b' c',
    0 < c' ∧ b' + c' ≤ length data0 ∧
    Predict col t =
    Some (OutputLeafValue (slice b' c' (responses st')) []).
Proof.
  unfold XGBTree_new. intros Hrun.
  pose proof (Train_good _ _ _ _ _ _ _ _ _ _ _ _ _ _ _ Hrun)
    as [Hc Hrange Hkb Hkc _ [_ Hd Hr _ _ Hw] Hnodes _]. simpl in *.
  pose proof (TrainLevels_fits _ _ _ _ _ _ _ _ _ _ _ _ _ _ _ _ Hrun)
    as Hfits.
  split_and!; [done..|].
  intros col Hcol. rewrite <- Hd in Hcol.
  apply list_elem_of_lookup in Hcol as [j Hj].
  assert (j < length data0).
  { apply lookup_lt_Some in Hj. by rewrite Hd in Hj. }
  destruct (Fits_Predict st' t k (EveryNode_and _ _ _ _ Hnodes Hfits) j col)
    as (kl & Hkl & Hjl & Hp); [unfold covers; lia|done|].
  apply Sound_leaves in Hnodes as [Ht Hl].
  apply list_elem_of_lookup in Hkl as [i Hkl].
  destruct (Tiles_inside _ _ _ _ _ Ht Hkl) as [_ Hend].
  destruct (Forall2_lookup_r _ _ _ _ _ Hl Hkl) as (l & _ & _ & _ & Hpos & _).
  exists (call_begin kl), (call_count kl).
  rewrite Hkb, Hkc in Hend. rewrite Hw in Hp. split_and!; [done|lia|done].
Qed.

End PredictMore.

(** * Concrete runs

    The runs use the reference collaborators; a numeric descriptor with
    one dimension, [minimumLeafSize = 1], [minimumGainSplit = 0]. *)

Section Runs.
Import Reference.

Local Abbreviation Train1 := (Train (all_numeric 1) 1 0%float 1).

(** Two doubles that [==] tells apart are different. *)
Lemma float_eqb_neq (x y : float) :
  (x =? y)%float = false → (y =? y)%float = true → x ≠ y.
Proof. intros H1 H2 ->. congruence. Qed.

Local Ltac float_discriminate H :=
  exfalso; revert H; apply float_eqb_neq; reflexivity.

(** The first scenario of section 8 of the specification: a split
    between 2 and 3 and two leaves predicting 0 and 10. *)
Example scenario_run :
  Train1 3 fresh scenario_state 0 4 None = Some scenario_result.
Proof. reflexivity. Qed.

Example scenario_predict :
  Predict [1%float] scenario_node = Some 0%float ∧
  Predict [4%float] scenario_node = Some 10%float.
Proof. split; reflexivity. Qed.

(** The second scenario of section 8: a categorical feature with three
    categories and the same response everywhere gives a single leaf. *)
Example uniform_categorical_run :
  Train
    {| Dimensionality := 1; Type_ := λ _, categorical;
       NumMappings := λ _, 3 |} 1 0%float 1 3 fresh
    {| data := [[0%float]; [1%float]; [2%float]];
       responses := [5%float; 5%float; 5%float]; weights := [] |} 0 3 None
  = Some (0%float, leaf 5 (-0),
          {| data := [[0%float]; [1%float]; [2%float]];
             responses := [5%float; 5%float; 5%float]; weights := [] |},
          None, leaf_call 0 3 0).
Proof. reflexivity. Qed.

Example shuffled_run sink :
  Train1 2 fresh shuffled_state 0 4 sink =
  Some (shuffled_result (notify sink shuffled_notifications)).
Proof. destruct sink; reflexivity. Qed.

Lemma Train_children_tile_witness :
  Train1 3 fresh scenario_state 0 4 None = Some scenario_result ∧
  call_begin scenario_call = 0 ∧ call_count scenario_call = 4 ∧
  EveryNode ChildrenTile scenario_node scenario_call.
Proof.
  split; [reflexivity|].
  apply (Train_children_tile (all_numeric 1) 1 0%float 1 3 fresh
    scenario_state 0 4 None (-0)%float scenario_node scenario_state None
    scenario_call).
  reflexivity.
Defined.

Lemma Train_reorders_pairs_witness :
  Train1 2 fresh shuffled_state 0 4 None = Some (shuffled_result None) ∧
  zip (slice 0 4 (data shuffled_state'))
      (slice 0 4 (responses shuffled_state')) ≡ₚ
    zip (slice 0 4 (data shuffled_state))
        (slice 0 4 (responses shuffled_state)) ∧
  ∀ j, ¬ (0 ≤ j < 0 + 4) →
    data shuffled_state' !! j = data shuffled_state !! j ∧
    responses shuffled_state' !! j = responses shuffled_state !! j.
Proof.
  split; [reflexivity|].
  apply (Train_reorders_pairs (all_numeric 1) 1 0%float 1 2 fresh
    shuffled_state 0 4 None 50%float shuffled_node shuffled_state' None
    shuffled_call).
  reflexivity.
Defined.

(** C3, as stated, fails: with [maximumDepth = 1] the root becomes a leaf
    directly, over the responses [0, 0, 10, 10], and its cached gain is
    [-100], not 0. *)
Lemma leaf_nodeGain_not_zero :
  Train1 1 fresh scenario_state 0 4 None =
    Some (100%float, leaf 5 (-100), scenario_state, None,
          leaf_call 0 4 100) ∧
  children (leaf 5 (-100)) = [] ∧
  nodeGain (leaf 5 (-100)) ≠ 0%float ∧
  (nodeGain (leaf 5 (-100)) =? 0)%float = false.
Proof.
  split_and!; [reflexivity..| |reflexivity].
  simpl. intros H. float_discriminate H.
Qed.

Lemma Train_nodeGain_witness :
  1 ≤ Dimensionality (all_numeric 1) ∧
  Train1 2 fresh shuffled_state 0 4 None = Some (shuffled_result None) ∧
  50%float = (- nodeGain shuffled_node)%float ∧
  (children shuffled_node = [] →
     nodeGain shuffled_node =
       Evaluate (slice 0 4 (responses shuffled_state))
         (weights shuffled_state)) ∧
  EveryNode GainCached shuffled_node shuffled_call.
Proof.
  split; [simpl; lia|]. split; [reflexivity|].
  apply (Train_nodeGain (all_numeric 1) 1 0%float 1 2 fresh
    shuffled_state 0 4 None 50%float shuffled_node shuffled_state' None
    shuffled_call).
  - simpl. lia.
  - reflexivity.
Defined.

(** C4, as stated, fails.  The assignments are [0, 1, 1, 0].  The pass
    for child 0 keeps column 0 and exchanges columns 1 and 3, which puts
    the sample [6] of child 1 behind the sample [7] of child 1; the pass
    for child 1 finds both in place.  The leaves reorder nothing, so the
    data ends as [5, 1, 7, 6]; a stable sort by child gives
    [5, 1, 6, 7]. *)
Lemma partition_not_stable :
  Train1 2 fresh shuffled_state 0 4 None = Some (shuffled_result None) ∧
  slice 0 4 (data shuffled_state') =
    [[5%float]; [1%float]; [7%float]; [6%float]] ∧
  stable_count_sort (CalculateDirection shuffled_node) 2
    (slice 0 4 (data shuffled_state)) =
    [[5%float]; [1%float]; [6%float]; [7%float]] ∧
  slice 0 4 (data shuffled_state') ≠
    stable_count_sort (CalculateDirection shuffled_node) 2
      (slice 0 4 (data shuffled_state)).
Proof.
  assert (Hs : stable_count_sort (CalculateDirection shuffled_node) 2
    (slice 0 4 (data shuffled_state)) =
    [[5%float]; [1%float]; [6%float]; [7%float]]) by reflexivity.
  split_and!; [reflexivity..|done|].
  rewrite Hs. intros H.
  apply (f_equal (λ l, from_option id 0%float (l !! 2 ≫= head))) in H.
  change (7%float = 6%float) in H. float_discriminate H.
Qed.

Lemma Train_groups_by_child_witness :
  Train1 2 fresh shuffled_state 0 4 None = Some (shuffled_result None) ∧
  (children shuffled_node ≠ [] →
     Tiles 0 (call_children shuffled_call) (0 + 4)) ∧
  (∀ i kc, call_children shuffled_call !! i = Some kc →
     Forall (λ col, CalculateDirection shuffled_node col = Some i)
       (slice (call_begin kc) (call_count kc) (data shuffled_state'))) ∧
  zip (slice 0 4 (data shuffled_state'))
      (slice 0 4 (responses shuffled_state')) ≡ₚ
    zip (slice 0 4 (data shuffled_state))
        (slice 0 4 (responses shuffled_state)).
Proof.
  split; [reflexivity|].
  apply (Train_groups_by_child (all_numeric 1) 1 0%float 1 2 fresh
    shuffled_state 0 4 None 50%float shuffled_node shuffled_state' None
    shuffled_call).
  reflexivity.
Defined.

(** C5, as stated, fails: the partition exchanges the responses of the
    second and the fourth sample and leaves their weights in place, so
    the response 0 ends up with the weight 2 of another sample. *)
Lemma weights_not_swapped :
  Train1 2 fresh shuffled_state 0 4 None = Some (shuffled_result None) ∧
  responses shuffled_state' = [10%float; 0%float; 30%float; 20%float] ∧
  weights shuffled_state' = weights shuffled_state ∧
  ¬ zip (responses shuffled_state') (weights shuffled_state') ≡ₚ
      zip (responses shuffled_state) (weights shuffled_state).
Proof.
  split_and!; [reflexivity..|]. intros Hp.
  assert (Hin : (0%float, 2%float) ∈
    zip (responses shuffled_state) (weights shuffled_state)).
  { rewrite <- Hp. simpl. right. left. }
  simpl in Hin. rewrite !elem_of_cons, elem_of_nil in Hin.
  destruct Hin as [H|[H|[H|[H|[]]]]];
    pose proof (f_equal fst H) as H1; pose proof (f_equal snd H) as H2;
    simpl in H1, H2;
    first [float_discriminate H1 | float_discriminate H2].
Qed.

Lemma Train_keeps_weights_witness :
  Train1 2 fresh shuffled_state 0 4 None = Some (shuffled_result None) ∧
  weights shuffled_state' = weights shuffled_state.
Proof.
  split; [reflexivity|].
  apply (Train_keeps_weights (all_numeric 1) 1 0%float 1 2 fresh
    shuffled_state 0 4 None 50%float shuffled_node shuffled_state' None
    shuffled_call).
  reflexivity.
Defined.

Lemma Train_depth_one_leaf_witness :
  0 < 4 ∧ 0 + 4 ≤ length (responses scenario_state) ∧
  Train1 1 fresh scenario_state 0 4 None =
    Some (100%float, leaf 5 (-100), scenario_state, None,
          leaf_call 0 4 100).
Proof.
  split; [lia|]. split; [simpl; lia|].
  exact (Train_depth_one_leaf (all_numeric 1) 1 0%float 1 fresh
    scenario_state 0 4 None ltac:(lia) ltac:(simpl; lia)).
Defined.

Lemma Prune_extremes_witness :
  Forall (λ n, ((-1) <? nodeGain n)%float = true) (nodes scenario_node) ∧
  (Prune (-1) scenario_node).1 = scenario_node ∧
  Forall (λ n, (nodeGain n <? 1)%float = true) (nodes scenario_node) ∧
  children (Prune 1 scenario_node).1 = [].
Proof.
  assert (H1 : Forall (λ n, ((-1) <? nodeGain n)%float = true)
    (nodes scenario_node)) by (repeat constructor).
  assert (H2 : Forall (λ n, (nodeGain n <? 1)%float = true)
    (nodes scenario_node)) by (repeat constructor).
  split_and!; [done| |done|].
  - by apply (Prune_extremes (-1) scenario_node).
  - by apply (Prune_extremes 1 scenario_node).
Defined.

Lemma Train_sink_witness :
  Train1 2 fresh shuffled_state 0 4 (Some []) =
    Some (shuffled_result (Some shuffled_notifications)) ∧
  Train1 2 fresh shuffled_state 0 4 (Some []) =
    with_sink (Some []) <$> Train1 2 fresh shuffled_state 0 4 None ∧
  Some shuffled_notifications =
    notify (Some []) (notifications shuffled_call) ∧
  EveryNode Committed shuffled_node shuffled_call ∧
  ∃ bestDim bestGain info ax,
    BestSplit (all_numeric 1) 1 0%float 1 2 fresh shuffled_state 0 4 =
      Some (bestDim, bestGain, info, ax) ∧
    call_split shuffled_call =
      if decide (bestDim ≠ Dimensionality (all_numeric 1))
      then Some (bestDim, bestGain) else None.
Proof.
  split; [reflexivity|].
  destruct (Train_sink (all_numeric 1) 1 0%float 1 2 fresh shuffled_state
    0 4 (Some [])) as [Hnull Hcalls].
  split; [exact Hnull|].
  apply (Hcalls 50%float shuffled_node shuffled_state'
    (Some shuffled_notifications) shuffled_call).
  reflexivity.
Defined.

(** The third data set, trained and pruned with a threshold above every
    gain: the root keeps its split on dimension 1 and loses both leaves,
    and [Predict] answers with the bytes of 1 read as a [double], the
    smallest positive subnormal, where the unpruned tree answers 10. *)
Lemma Predict_childless_witness :
  children (leaf 10 (-0)) = [] ∧
  (Predict [4%float] (leaf 10 (-0)) = Some 10%float ∧
   ∀ p, slot (leaf 10 (-0)) = prediction p →
     Predict [4%float] (leaf 10 (-0)) = Some p) ∧
  Train (all_numeric 2) 1 0%float 2 3 fresh planar_state 0 4 None =
    Some planar_result ∧
  Predict [0%float; 4%float] planar_node = Some 10%float ∧
  children (Prune 1 planar_node).1 = [] ∧
  slot planar_node = splitDimension 1 ∧
  (Z.of_nat 1 < 2 ^ 64)%Z ∧
  ((Z.of_nat 1 / 2 ^ 52) mod 2 ^ 11 ≠ 2047 ∨ Z.of_nat 1 mod 2 ^ 52 = 0)%Z ∧
  (0 < Z.of_nat 1 < 2 ^ 52)%Z ∧
  ∃ v, Predict [0%float; 4%float] (Prune 1 planar_node).1 = Some v ∧
    v = 0x1p-1074%float ∧
    bits_of_double v = 1%Z ∧
    Prim2SF v = S754_finite false 1 (-1074) ∧
    (0 <? v)%float = true ∧ (v <? 0x1p-1022)%float = true ∧
    (v =? 10)%float = false ∧ (v =? 0)%float = false.
Proof.
  split; [reflexivity|]. split.
  { by apply (Predict_childless [4%float] 1 (leaf 10 (-0))). }
  split; [reflexivity|]. split; [reflexivity|].
  split; [reflexivity|]. split; [reflexivity|].
  assert (H0 : (Z.of_nat 1 < 2 ^ 64)%Z) by (simpl; lia).
  assert (H1 : ((Z.of_nat 1 / 2 ^ 52) mod 2 ^ 11 ≠ 2047 ∨
                Z.of_nat 1 mod 2 ^ 52 = 0)%Z) by (left; discriminate).
  assert (H2 : (0 < Z.of_nat 1 < 2 ^ 52)%Z) by (simpl; lia).
  split; [exact H0|]. split; [exact H1|]. split; [exact H2|].
  destruct (Predict_childless [0%float; 4%float] 1 planar_node)
    as [_ Hpruned].
  destruct (Hpruned ltac:(reflexivity)) as [_ Hbits].
  destruct (Hbits 1 ltac:(reflexivity))
    as (v & Hv & Heq & Hback & Hsub).
  destruct (Hsub H2) as (Hsf & Hpos & Hsmall).
  exists v. split; [exact Hv|]. split; [exact Heq|].
  split; [exact (Hback H0 H1)|]. split; [exact Hsf|].
  split; [exact Hpos|]. split; [exact Hsmall|].
  rewrite Heq. split; reflexivity.
Defined.

(** ** Runs for the further properties *)

Lemma Prune_survivors_witness :
  leaf 9 (-2) ∈ flat_map nodes (children (Prune (-4) pruning_node).1) ∧
  (nodeGain (leaf 9 (-2)) <? -4)%float = false.
Proof.
  assert (H : leaf 9 (-2) ∈
    flat_map nodes (children (Prune (-4) pruning_node).1)) by by left.
  split; [exact H|]. exact (Prune_survivors (-4) pruning_node _ H).
Defined.

Lemma Prune_only_removes_witness :
  leaf 9 (-2) ∈ nodes (Prune (-4) pruning_node).1 ∧
  (∃ n, n ∈ nodes pruning_node ∧ leaf 9 (-2) = (Prune (-4) n).1) ∧
  length (nodes (Prune (-4) pruning_node).1) ≤ length (nodes pruning_node).
Proof.
  assert (H : leaf 9 (-2) ∈ nodes (Prune (-4) pruning_node).1)
    by (right; left).
  destruct (Prune_only_removes (-4) pruning_node) as [Hnodes Hsize].
  split; [exact H|]. split; [exact (Hnodes _ H)|exact Hsize].
Defined.

Lemma Prune_Prune_le_witness :
  (-4 <=? -1.5)%float = true ∧
  Prune (-1.5) (Prune (-4) pruning_node).1 = Prune (-1.5) pruning_node.
Proof.
  split; [reflexivity|].
  apply (Prune_Prune_le (-4) (-1.5) pruning_node). reflexivity.
Defined.

Lemma Predict_returns_leaf_witness :
  Predict [1%float] scenario_node = Some 0%float ∧
  ∃ l, l ∈ leaves scenario_node ∧ children l = [] ∧
       0%float = read_prediction (slot l).
Proof.
  split; [reflexivity|].
  apply (Predict_returns_leaf [1%float] scenario_node 0). reflexivity.
Defined.

Lemma Predict_reads_split_dimensions_witness :
  Forall (λ n, [1%float; 7%float] !! read_splitDimension (slot n) =
               [1%float; 8%float] !! read_splitDimension (slot n))
    (internal_nodes scenario_node) ∧
  Predict [1%float; 7%float] scenario_node =
  Predict [1%float; 8%float] scenario_node.
Proof.
  assert (H : Forall
    (λ n, [1%float; 7%float] !! read_splitDimension (slot n) =
          [1%float; 8%float] !! read_splitDimension (slot n))
    (internal_nodes scenario_node)).
  { change (internal_nodes scenario_node) with [scenario_node].
    constructor; [reflexivity|constructor]. }
  split; [exact H|].
  exact (Predict_reads_split_dimensions _ _ scenario_node H).
Defined.

Lemma Train_rejects_empty_ranges_witness :
  (0 = 0 ∨ length (responses scenario_state) < 0 + 0) ∧
  Train1 3 fresh scenario_state 0 0 None = None ∧
  Train1 3 fresh scenario_state 0 4 None = Some scenario_result ∧
  EveryNode (λ _ kn, 0 < call_count kn) scenario_node scenario_call.
Proof.
  destruct (Train_rejects_empty_ranges (all_numeric 1) 1 0%float 1 3 fresh
    scenario_state 0 0 None) as [Hempty _].
  destruct (Train_rejects_empty_ranges (all_numeric 1) 1 0%float 1 3 fresh
    scenario_state 0 4 None) as [_ Hnodes].
  split; [by left|]. split; [apply Hempty; by left|].
  split; [reflexivity|].
  apply (Hnodes (-0)%float scenario_node scenario_state None scenario_call).
  reflexivity.
Defined.

Lemma Train_leaves_partition_witness :
  Train1 3 fresh scenario_state 0 4 None = Some scenario_result ∧
  Tiles 0 (leaf_calls scenario_call) (0 + 4) ∧
  Forall2 (λ l kl, children l = [] ∧ 0 < call_count kl)
    (leaves scenario_node) (leaf_calls scenario_call) ∧
  0 < length (leaves scenario_node) ≤ 4.
Proof.
  split; [reflexivity|].
  apply (Train_leaves_partition (all_numeric 1) 1 0%float 1 3 fresh
    scenario_state 0 4 None (-0)%float scenario_node scenario_state None
    scenario_call).
  reflexivity.
Defined.

Lemma Train_frequencies_witness :
  Train1 2 fresh shuffled_state 0 4 (Some []) =
    Some (shuffled_result (Some shuffled_notifications)) ∧
  ∃ log', Some shuffled_notifications = Some log' ∧
    frequencies log' =
    frequencies [] ++
      ((λ n, (read_splitDimension (slot n), 1)) <$>
         internal_nodes shuffled_node).
Proof.
  split; [reflexivity|].
  apply (Train_frequencies (all_numeric 1) 1 0%float 1 2 fresh
    shuffled_state 0 4 [] 50%float shuffled_node shuffled_state'
    (Some shuffled_notifications) shuffled_call).
  reflexivity.
Defined.

Lemma Train_Predict_witness :
  Train1 2 fresh shuffled_state 0 4 None = Some (shuffled_result None) ∧
  0 ≤ 1 < 0 + 4 ∧ data shuffled_state' !! 1 = Some [1%float] ∧
  ∃ kl, kl ∈ leaf_calls shuffled_call ∧ covers kl 1 ∧
    0 ≤ call_begin kl ∧ call_begin kl + call_count kl ≤ 0 + 4 ∧
    Predict [1%float] shuffled_node =
    Some (OutputLeafValue
            (slice (call_begin kl) (call_count kl)
               (responses shuffled_state'))
            (weights shuffled_state')).
Proof.
  split; [reflexivity|]. split; [lia|]. split; [reflexivity|].
  apply (Train_Predict (all_numeric 1) 1 0%float 1 2 fresh
    shuffled_state 0 4 None 50%float shuffled_node shuffled_state' None
    shuffled_call 1 [1%float]).
  - reflexivity.
  - lia.
  - reflexivity.
Defined.

Lemma Train_depth_witness :
  (1 ≤ 2 < 2 ^ 64)%Z ∧
  Train1 2 fresh shuffled_state 0 4 None = Some (shuffled_result None) ∧
  (Z.of_nat (depth shuffled_node) ≤ 2)%Z.
Proof.
  split; [lia|]. split; [reflexivity|].
  apply (Train_depth (all_numeric 1) 1 0%float 1 2 fresh
    shuffled_state 0 4 None 50%float shuffled_node shuffled_state' None
    shuffled_call).
  - lia.
  - reflexivity.
Defined.

Lemma BestSplit_cases_witness :
  BestSplit (C := collaborators) (all_numeric 1) 1 0%float 1 2 fresh
    shuffled_state 0 4 = Some (0, (-100)%float, [5.5%float], tt) ∧
  ((0 = Dimensionality (all_numeric 1) ∧
    (-100)%float =
      Evaluate (slice 0 4 (responses shuffled_state))
        (weights shuffled_state)) ∨
   (0 < 1 ∧ 2%Z ≠ 1%Z ∧ (-100 =? DBL_MAX)%float = false)).
Proof.
  split; [reflexivity|].
  apply (BestSplit_cases (C := collaborators) (all_numeric 1) 1 0%float 1 2
    fresh shuffled_state 0 4 0 (-100)%float [5.5%float] tt).
  reflexivity.
Defined.

Lemma Train_internal_nodes_witness :
  Train1 2 fresh shuffled_state 0 4 None = Some (shuffled_result None) ∧
  Forall (SplitsOn (all_numeric 1) 1) (internal_nodes shuffled_node).
Proof.
  split; [reflexivity|].
  apply (Train_internal_nodes (all_numeric 1) 1 0%float 1 2 fresh
    shuffled_state 0 4 None 50%float shuffled_node shuffled_state' None
    shuffled_call).
  reflexivity.
Defined.

Lemma CountChildren_counts_witness :
  Forall (λ a, a < 2) [0; 1; 1; 0] ∧
  CountChildren (replicate 2 0) [0; 1; 1; 0] = Some [2; 2] ∧
  is_Some (CountChildren (replicate 2 0) [0; 1; 1; 0]) ∧
  length [2; 2] = 2 ∧
  (∀ i, i < 2 →
     [2; 2] !! i = Some (length (filter (λ a, a = i) [0; 1; 1; 0]))) ∧
  sum_list [2; 2] = length [0; 1; 1; 0].
Proof.
  assert (H : Forall (λ a, a < 2) [0; 1; 1; 0])
    by (repeat constructor).
  destruct (CountChildren_counts 2 [0; 1; 1; 0]) as [Hsome Hcounts].
  split; [exact H|]. split; [reflexivity|].
  split; [apply Hsome, H|]. apply Hcounts. reflexivity.
Defined.

(** The pass for child 0 at the root of the second data set: the
    assignments are [0, 1, 1, 0], and the block of child 0 ends up with
    the first and the last sample, in this order. *)
Lemma PartitionPass_keeps_order_witness :
  0 ≤ 0 ∧ 0 + 4 ≤ length (data shuffled_state) ∧
  0 + 4 ≤ length (responses shuffled_state) ∧
  PartitionPass 0 0 (seq 0 4) [0; 1; 1; 0] shuffled_state 0 =
    Some ([0; 0; 1; 1], shuffled_state', 2) ∧
  0 ≤ 2 ∧
  (∀ p, p < 0 → pairs shuffled_state' !! p = pairs shuffled_state !! p) ∧
  slice 0 (2 - 0) (pairs shuffled_state') =
    (filter (λ p, p.1 = 0)
       (zip (slice (0 - 0) 4 [0; 1; 1; 0])
          (slice 0 4 (pairs shuffled_state)))).*2.
Proof.
  split; [lia|]. split; [simpl; lia|]. split; [simpl; lia|].
  split; [reflexivity|].
  apply (PartitionPass_keeps_order 0 0 0 4 [0; 1; 1; 0] shuffled_state
    [0; 0; 1; 1] shuffled_state' 2).
  - lia.
  - simpl. lia.
  - simpl. lia.
  - reflexivity.
Defined.

Lemma XGBTree_new_trained_witness :
  XGBTree_new (data scenario_state) (responses scenario_state)
    (all_numeric 1) 1 0%float 3 None = Some scenario_result ∧
  0 < length (data scenario_state) ≤ length (responses scenario_state) ∧
  data scenario_state ≡ₚ data scenario_state ∧
  responses scenario_state ≡ₚ responses scenario_state ∧
  weights scenario_state = [] ∧
  ∀ col, col ∈ data scenario_state → ∃ b' c',
    0 < c' ∧ b' + c' ≤ length (data scenario_state) ∧
    Predict col scenario_node =
    Some (OutputLeafValue (slice b' c' (responses scenario_state)) []).
Proof.
  split; [reflexivity|].
  apply (XGBTree_new_trained (data scenario_state)
    (responses scenario_state) (all_numeric 1) 1 0%float 3 None
    (-0)%float scenario_node scenario_state None scenario_call).
  reflexivity.
Defined.

Lemma Train_leaf_witness :
  Train1 1 fresh scenario_state 0 4 None =
    Some (100%float, leaf 5 (-100), scenario_state, None,
          leaf_call 0 4 100) ∧
  children (leaf 5 (-100)) = [] ∧
  scenario_state = scenario_state ∧ @None FeatureImportance = None ∧
  call_children (leaf_call 0 4 100) = [] ∧
  slot (leaf 5 (-100)) =
    prediction
      (OutputLeafValue (slice 0 4 (responses scenario_state))
         (weights scenario_state)).
Proof.
  split; [reflexivity|]. split; [reflexivity|].
  apply (Train_leaf (all_numeric 1) 1 0%float 1 1 fresh scenario_state 0 4
    None 100%float (leaf 5 (-100)) scenario_state None
    (leaf_call 0 4 100)); reflexivity.
Defined.

End Runs.
